(** * AMD Sensor Fusion Hub HID client: sensor registry and life cycle

    A shallow embedding of [amd-sfh-client.c].  The C functions

      - [amd_sfh_get_sensor_name]
      - [amd_sfh_hid_probe]
      - [amd_sfh_client_init]
      - [amd_sfh_client_deinit]

    are transcribed as functions over an explicit kernel heap.  Every
    call returns its result, the new heap and the list of events it
    produced (allocations, releases, registrations, diagnostics and
    stores into the [sensors] array), so that statements about leaks,
    ordering and the number of destructions can be made about the
    transcription itself. *)

From Stdlib Require Import ZArith String List Lia.
From stdpp Require Import gmap strings list fin_maps.

Local Open Scope Z_scope.

(** ** Pointers

    A C pointer is [NULL], the address of an allocation, or an errno
    value encoded by the kernel's [ERR_PTR]. *)

Inductive ptr : Type :=
| NULL
| Ptr (a : nat)
| ERR_PTR (errno : Z).

#[global] Instance ptr_eq_dec : EqDecision ptr.
Proof. solve_decision. Defined.

(** [IS_ERR(p)] *)
Definition IS_ERR (p : ptr) : bool :=
  match p with ERR_PTR _ => true | _ => false end.

(** C truthiness of a pointer: [if (p)] and [if (!p)]. *)
Definition truthy (p : ptr) : bool :=
  match p with NULL => false | _ => true end.

Definition ENOMEM : Z := 12.
Definition E2BIG : Z := 7.
Definition INT_MAX : Z := 2147483647.

(** ** Objects on the kernel heap *)

Inductive ll_driver : Type :=
| no_ll_driver
| amd_sfh_hid_ll_driver.

(** [struct hid_device], restricted to the members the client touches,
    plus the two pieces of the embedded [struct device] that decide
    what [hid_destroy_device] has to undo: the managed (devm)
    allocations hanging off the device, most recent first, and whether
    the device has been added to the HID bus. *)
Record hid_device : Type := mk_hid_device {
  hid_bus : Z;
  hid_group : Z;
  hid_vendor : Z;
  hid_product : Z;
  hid_version : Z;
  hid_type : Z;
  hid_ll_driver : ll_driver;
  hid_name : string;
  hid_phys : string;
  hid_driver_data : ptr;
  hid_devres : list nat;
  hid_added : bool
}.

(** [struct amd_sfh_hid_data], the members the client sets.
    [report_size] is taken to hold every non-negative [int]. *)
Record amd_sfh_hid_data : Type := mk_hid_data {
  hd_sensor_idx : Z;
  hd_pci_dev : ptr;
  hd_hid : ptr;
  hd_cpu_addr : ptr;
  hd_report_size : Z;
  hd_report_buf : ptr
}.

Inductive obj : Type :=
| Hid (d : hid_device)
| HidData (hd : amd_sfh_hid_data)
| Bytes (b : list Z).

(** What [kzalloc] hands out: every member zero. *)
Definition zeroed_hid_device : hid_device :=
  mk_hid_device 0 0 0 0 0 0 no_ll_driver "" "" NULL [] false.

Definition zeroed_hid_data : amd_sfh_hid_data :=
  mk_hid_data 0 NULL NULL NULL 0 NULL.

Definition zeroed_bytes (size : Z) : list Z := replicate (Z.to_nat size) 0.

(** ** Events *)

Inductive loglevel : Type := KERN_ERR | KERN_WARNING.

Inductive event : Type :=
| EvAlloc (a : nat)                      (* memory obtained at [a] *)
| EvFree (a : nat)                       (* memory at [a] released *)
| EvRegister (a : nat)                   (* device added to the HID bus *)
| EvUnregister (a : nat)                 (* device removed from the HID bus *)
| EvDestroy (p : ptr)                    (* [hid_destroy_device(p)] was called *)
| EvFault (p : ptr)                      (* [p] was used but is not a live object *)
| EvLog (lvl : loglevel) (msg : string)  (* [pci_err], [hid_err], [hid_warn] *)
| EvStore (i : nat) (p : ptr).           (* [privdata->sensors[i] = p] *)

#[global] Instance loglevel_eq_dec : EqDecision loglevel.
Proof. solve_decision. Defined.

#[global] Instance event_eq_dec : EqDecision event.
Proof. solve_decision. Defined.

(** ** The state-and-log monad

    A computation takes the heap and returns a value, the heap it
    leaves behind and the events it produced, oldest first. *)

Definition M (A : Type) : Type :=
  gmap nat obj → A * gmap nat obj * list event.

Definition ret {A} (x : A) : M A := λ h, (x, h, []).

Definition bind {A B} (m : M A) (k : A → M B) : M B :=
  λ h, let '(x, h1, e1) := m h in
       let '(y, h2, e2) := k x h1 in
       (y, h2, e1 ++ e2).

Definition emit (e : event) : M unit := λ h, (tt, h, [e]).

Declare Scope m_scope.
Delimit Scope m_scope with M.
Notation "'do' x <~ m ; k" := (bind m (λ x, k))
  (at level 10, x name, m at level 100, k at level 200) : m_scope.
Open Scope m_scope.

(** Accessors for the triple returned by a computation. *)
Definition value {A} (r : A * gmap nat obj * list event) : A := r.1.1.
Definition heap_of {A} (r : A * gmap nat obj * list event) : gmap nat obj := r.1.2.
Definition events {A} (r : A * gmap nat obj * list event) : list event := r.2.

(** ** Member updates *)

Definition set_hid_bus (v : Z) (d : hid_device) : hid_device :=
  mk_hid_device v (hid_group d) (hid_vendor d) (hid_product d) (hid_version d)
    (hid_type d) (hid_ll_driver d) (hid_name d) (hid_phys d)
    (hid_driver_data d) (hid_devres d) (hid_added d).
Definition set_hid_group (v : Z) (d : hid_device) : hid_device :=
  mk_hid_device (hid_bus d) v (hid_vendor d) (hid_product d) (hid_version d)
    (hid_type d) (hid_ll_driver d) (hid_name d) (hid_phys d)
    (hid_driver_data d) (hid_devres d) (hid_added d).
Definition set_hid_vendor (v : Z) (d : hid_device) : hid_device :=
  mk_hid_device (hid_bus d) (hid_group d) v (hid_product d) (hid_version d)
    (hid_type d) (hid_ll_driver d) (hid_name d) (hid_phys d)
    (hid_driver_data d) (hid_devres d) (hid_added d).
Definition set_hid_product (v : Z) (d : hid_device) : hid_device :=
  mk_hid_device (hid_bus d) (hid_group d) (hid_vendor d) v (hid_version d)
    (hid_type d) (hid_ll_driver d) (hid_name d) (hid_phys d)
    (hid_driver_data d) (hid_devres d) (hid_added d).
Definition set_hid_version (v : Z) (d : hid_device) : hid_device :=
  mk_hid_device (hid_bus d) (hid_group d) (hid_vendor d) (hid_product d) v
    (hid_type d) (hid_ll_driver d) (hid_name d) (hid_phys d)
    (hid_driver_data d) (hid_devres d) (hid_added d).
Definition set_hid_type (v : Z) (d : hid_device) : hid_device :=
  mk_hid_device (hid_bus d) (hid_group d) (hid_vendor d) (hid_product d)
    (hid_version d) v (hid_ll_driver d) (hid_name d) (hid_phys d)
    (hid_driver_data d) (hid_devres d) (hid_added d).
Definition set_hid_ll_driver (v : ll_driver) (d : hid_device) : hid_device :=
  mk_hid_device (hid_bus d) (hid_group d) (hid_vendor d) (hid_product d)
    (hid_version d) (hid_type d) v (hid_name d) (hid_phys d)
    (hid_driver_data d) (hid_devres d) (hid_added d).
Definition set_hid_name (v : string) (d : hid_device) : hid_device :=
  mk_hid_device (hid_bus d) (hid_group d) (hid_vendor d) (hid_product d)
    (hid_version d) (hid_type d) (hid_ll_driver d) v (hid_phys d)
    (hid_driver_data d) (hid_devres d) (hid_added d).
Definition set_hid_phys (v : string) (d : hid_device) : hid_device :=
  mk_hid_device (hid_bus d) (hid_group d) (hid_vendor d) (hid_product d)
    (hid_version d) (hid_type d) (hid_ll_driver d) (hid_name d) v
    (hid_driver_data d) (hid_devres d) (hid_added d).
Definition set_hid_driver_data (v : ptr) (d : hid_device) : hid_device :=
  mk_hid_device (hid_bus d) (hid_group d) (hid_vendor d) (hid_product d)
    (hid_version d) (hid_type d) (hid_ll_driver d) (hid_name d) (hid_phys d)
    v (hid_devres d) (hid_added d).
Definition set_hid_devres (v : list nat) (d : hid_device) : hid_device :=
  mk_hid_device (hid_bus d) (hid_group d) (hid_vendor d) (hid_product d)
    (hid_version d) (hid_type d) (hid_ll_driver d) (hid_name d) (hid_phys d)
    (hid_driver_data d) v (hid_added d).
Definition set_hid_added (v : bool) (d : hid_device) : hid_device :=
  mk_hid_device (hid_bus d) (hid_group d) (hid_vendor d) (hid_product d)
    (hid_version d) (hid_type d) (hid_ll_driver d) (hid_name d) (hid_phys d)
    (hid_driver_data d) (hid_devres d) v.

Definition set_hd_sensor_idx (v : Z) (x : amd_sfh_hid_data) : amd_sfh_hid_data :=
  mk_hid_data v (hd_pci_dev x) (hd_hid x) (hd_cpu_addr x)
    (hd_report_size x) (hd_report_buf x).
Definition set_hd_pci_dev (v : ptr) (x : amd_sfh_hid_data) : amd_sfh_hid_data :=
  mk_hid_data (hd_sensor_idx x) v (hd_hid x) (hd_cpu_addr x)
    (hd_report_size x) (hd_report_buf x).
Definition set_hd_hid (v : ptr) (x : amd_sfh_hid_data) : amd_sfh_hid_data :=
  mk_hid_data (hd_sensor_idx x) (hd_pci_dev x) v (hd_cpu_addr x)
    (hd_report_size x) (hd_report_buf x).
Definition set_hd_cpu_addr (v : ptr) (x : amd_sfh_hid_data) : amd_sfh_hid_data :=
  mk_hid_data (hd_sensor_idx x) (hd_pci_dev x) (hd_hid x) v
    (hd_report_size x) (hd_report_buf x).
Definition set_hd_report_size (v : Z) (x : amd_sfh_hid_data) : amd_sfh_hid_data :=
  mk_hid_data (hd_sensor_idx x) (hd_pci_dev x) (hd_hid x) (hd_cpu_addr x)
    v (hd_report_buf x).
Definition set_hd_report_buf (v : ptr) (x : amd_sfh_hid_data) : amd_sfh_hid_data :=
  mk_hid_data (hd_sensor_idx x) (hd_pci_dev x) (hd_hid x) (hd_cpu_addr x)
    (hd_report_size x) v.

Definition on_hid (f : hid_device → hid_device) (o : obj) : obj :=
  match o with Hid d => Hid (f d) | _ => o end.

Definition on_hid_data (f : amd_sfh_hid_data → amd_sfh_hid_data) (o : obj) : obj :=
  match o with HidData x => HidData (f x) | _ => o end.

(** [hid->member = v]: a store through a [struct hid_device *]. *)
Definition hid_write (hid : ptr) (f : hid_device → hid_device) : M unit :=
  λ h, match hid with
       | Ptr a => (tt, alter (on_hid f) a h, [])
       | _ => (tt, h, [EvFault hid])
       end.

(** [hid_data->member = v]: a store through a [struct amd_sfh_hid_data *]. *)
Definition hid_data_write (hid_data : ptr)
    (f : amd_sfh_hid_data → amd_sfh_hid_data) : M unit :=
  λ h, match hid_data with
       | Ptr a => (tt, alter (on_hid_data f) a h, [])
       | _ => (tt, h, [EvFault hid_data])
       end.

(** ** Kernel services

    The services below belong to the kernel, not to the client.  Each
    one that can fail takes the outcome it is to have as its first
    argument; the caller reads it from the environment.

    Memory is handed out at an address that is not live; which one is
    a fixed function ([fresh]) of the set of live addresses, so a
    released address can be handed out again.

    [hid_allocate_device] returns a zeroed device or
    [ERR_PTR(-ENOMEM)], never [NULL]. *)
Definition hid_allocate_device (ok : bool) : M ptr :=
  λ h, if ok
       then let a := fresh (dom h) in
            (Ptr a, <[a := Hid zeroed_hid_device]> h, [EvAlloc a])
       else (ERR_PTR (- ENOMEM), h, []).

(** [devm_kzalloc(&hid->dev, size, GFP_KERNEL)]: zeroed memory whose
    life time is tied to the device; [NULL] when memory is short.
    [zero] is the zeroed object of the requested size. *)
Definition devm_kzalloc (ok : bool) (hid : ptr) (zero : obj) : M ptr :=
  λ h, match hid with
       | Ptr a =>
           if ok
           then let r := fresh (dom h) in
                (Ptr r,
                 <[r := zero]>
                   (alter (on_hid (λ d, set_hid_devres (r :: hid_devres d) d)) a h),
                 [EvAlloc r])
           else (NULL, h, [])
       | _ => (NULL, h, [EvFault hid])
       end.

(** [hid_add_device(hid)]: 0 and the device is on the bus, or a
    non-zero error code and nothing has changed. *)
Definition hid_add_device (rc : Z) (hid : ptr) : M Z :=
  λ h, match hid with
       | Ptr a =>
           if rc =? 0
           then (0, alter (on_hid (set_hid_added true)) a h, [EvRegister a])
           else (rc, h, [])
       | _ => (rc, h, [EvFault hid])
       end.

(** [hid_destroy_device(hid)]: takes the device off the bus if it was
    added, then drops the last reference, which releases the managed
    allocations (latest first) and the device itself.  Calling it with
    anything but a live device is a fault. *)
Definition hid_destroy_device (hid : ptr) : M unit :=
  λ h, match hid with
       | Ptr a =>
           match h !! a with
           | Some (Hid d) =>
               (tt,
                delete a (foldr delete h (hid_devres d)),
                EvDestroy hid
                  :: (if hid_added d then [EvUnregister a] else [])
                  ++ (EvFree <$> hid_devres d) ++ [EvFree a])
           | _ => (tt, h, [EvDestroy hid; EvFault hid])
           end
       | _ => (tt, h, [EvDestroy hid; EvFault hid])
       end.

Definition pci_err (pci_dev : ptr) (msg : string) : M unit :=
  emit (EvLog KERN_ERR msg).
Definition hid_err (hid : ptr) (msg : string) : M unit :=
  emit (EvLog KERN_ERR msg).
Definition hid_warn (hid : ptr) (msg : string) : M unit :=
  emit (EvLog KERN_WARNING msg).

(** [strscpy(dest, src, count)]: copies at most [count - 1] characters
    and terminates the copy; returns the number of characters copied,
    or [-E2BIG] when [src] had to be cut (or [count] is unusable).  The
    pair is the new content of [dest] and the return value. *)
Definition strscpy (dest src : string) (count : Z) : string * Z :=
  if (count =? 0) || (INT_MAX <? count) then (dest, - E2BIG)
  else if Z.of_nat (String.length src) <? count
       then (src, Z.of_nat (String.length src))
       else (substring 0 (Z.to_nat (count - 1)) src, - E2BIG).

(** ** What the headers and the environment supply *)

(** Constants from headers that are not part of [amd-sfh-client.c]:
    the [enum sensor_idx] values and the sensor bit masks of
    [amd-sfh.h] and [amd-sfh-pci.h], the report type of
    [amd-sfh-hid-reports.h], the HID constants and the sizes of the
    [name] and [phys] members of [struct hid_device] from
    [linux/hid.h] and [linux/input.h], and the width of [size_t]. *)
Class platform : Type := {
  ACCEL_IDX : Z;
  GYRO_IDX : Z;
  MAG_IDX : Z;
  ALS_IDX : Z;
  ACCEL_MASK : Z;
  GYRO_MASK : Z;
  MAGNO_MASK : Z;
  ALS_MASK : Z;
  AMD_SFH_INPUT_REPORT : Z;
  BUS_I2C : Z;
  HID_GROUP_SENSOR_HUB : Z;
  HID_TYPE_OTHER : Z;
  sizeof_hid_name : Z;
  sizeof_hid_phys : Z;
  SIZE_T_BITS : Z
}.

(** How the kernel answers during one call of [amd_sfh_hid_probe]. *)
Record outcomes : Type := mk_outcomes {
  hid_alloc_ok : bool;      (* [hid_allocate_device] succeeds *)
  data_alloc_ok : bool;     (* [devm_kzalloc] of the driver data succeeds *)
  buf_alloc_ok : bool;      (* [devm_kzalloc] of the report buffer succeeds *)
  add_device_rc : Z         (* return value of [hid_add_device] *)
}.

(** The collaborators: the PCI layer's sensor mask, the descriptor
    provider, and the kernel's answers while the given sensor is being
    probed.  Within one [amd_sfh_client_init] every sensor is probed at
    most once, so indexing the answers by sensor loses nothing. *)
Class env : Type := {
  amd_sfh_get_sensor_mask : ptr → Z;
  get_descriptor_size : Z → Z → Z;
  kernel_outcomes : Z → outcomes
}.

(** Modelled from the spec: [AMD_SFH_MAX_SENSORS] of [amd-sfh.h], the
    length of the [sensors] array; the registry has one slot per known
    sensor kind, and there are four kinds. *)
Definition AMD_SFH_MAX_SENSORS : nat := 4.

(** [struct amd_sfh_data], the members the client uses. *)
Record amd_sfh_data : Type := mk_amd_sfh_data {
  sfh_pci_dev : ptr;
  sensors : list ptr
}.

(** [privdata->sensors[i] = p].  The index is in range whenever the
    array has [AMD_SFH_MAX_SENSORS] entries and [i] is below that. *)
Definition sensors_store (privdata : amd_sfh_data) (i : nat) (p : ptr)
    : M amd_sfh_data :=
  λ h, (mk_amd_sfh_data (sfh_pci_dev privdata) (<[i := p]> (sensors privdata)),
        h, [EvStore i p]).

(** [privdata->sensors[i]] *)
Definition sensors_load (privdata : amd_sfh_data) (i : nat) : ptr :=
  default NULL (sensors privdata !! i).

(** ** The client *)

Definition AMD_SFH_HID_VENDOR : Z := 0x3fe.
Definition AMD_SFH_HID_PRODUCT : Z := 0x0001.
Definition AMD_SFH_HID_VERSION : Z := 0x0001.
Definition AMD_SFH_PHY_DEV : string := "AMD Sensor Fusion Hub (PCIe)".

(** C's test of an integer in a condition. *)
Definition nonzero (z : Z) : bool := negb (z =? 0).

Section Client.
Context {P : platform} {E : env}.

(** Conversion of an [int] to [size_t] for the comparison with
    [sizeof]. *)
Definition to_size_t (z : Z) : Z := z mod 2 ^ SIZE_T_BITS.

Definition amd_sfh_get_sensor_name (sensor_idx : Z) : string :=
  if sensor_idx =? ACCEL_IDX then "accelerometer"
  else if sensor_idx =? GYRO_IDX then "gyroscope"
  else if sensor_idx =? MAG_IDX then "magnetometer"
  else if sensor_idx =? ALS_IDX then "ambient light sensor"
  else "unknown sensor type".

(** [rc = strscpy(hid->name, name, sizeof(hid->name))] *)
Definition strscpy_hid_name (hid : ptr) (src : string) (count : Z) : M Z :=
  do _ <~ hid_write hid (λ d, set_hid_name (strscpy (hid_name d) src count).1 d);
  ret (strscpy "" src count).2.

(** [rc = strscpy(hid->phys, AMD_SFH_PHY_DEV, sizeof(hid->phys))] *)
Definition strscpy_hid_phys (hid : ptr) (src : string) (count : Z) : M Z :=
  do _ <~ hid_write hid (λ d, set_hid_phys (strscpy (hid_phys d) src count).1 d);
  ret (strscpy "" src count).2.

(** The two exit labels of [amd_sfh_hid_probe]. *)
Definition err_hid_alloc : M ptr := ret NULL.

Definition destroy_hid_device (hid : ptr) : M ptr :=
  do _ <~ hid_destroy_device hid;
  err_hid_alloc.

Definition amd_sfh_hid_probe (pci_dev : ptr) (sensor_idx : Z) : M ptr :=
  let k := kernel_outcomes sensor_idx in
  do hid <~ hid_allocate_device (hid_alloc_ok k);
  if IS_ERR hid then
    do _ <~ pci_err pci_dev "Failed to allocate HID device!";
    err_hid_alloc
  else
  do _ <~ hid_write hid (set_hid_bus BUS_I2C);
  do _ <~ hid_write hid (set_hid_group HID_GROUP_SENSOR_HUB);
  do _ <~ hid_write hid (set_hid_vendor AMD_SFH_HID_VENDOR);
  do _ <~ hid_write hid (set_hid_product AMD_SFH_HID_PRODUCT);
  do _ <~ hid_write hid (set_hid_version AMD_SFH_HID_VERSION);
  do _ <~ hid_write hid (set_hid_type HID_TYPE_OTHER);
  do _ <~ hid_write hid (set_hid_ll_driver amd_sfh_hid_ll_driver);
  let name := amd_sfh_get_sensor_name sensor_idx in
  do rc <~ strscpy_hid_name hid name sizeof_hid_name;
  do _ <~ (if sizeof_hid_name <=? to_size_t rc
           then hid_warn hid "Could not set HID device name."
           else ret tt);
  do rc <~ strscpy_hid_phys hid AMD_SFH_PHY_DEV sizeof_hid_phys;
  do _ <~ (if sizeof_hid_phys <=? to_size_t rc
           then hid_warn hid "Could not set HID device location."
           else ret tt);
  do hid_data <~ devm_kzalloc (data_alloc_ok k) hid (HidData zeroed_hid_data);
  if negb (truthy hid_data) then
    destroy_hid_device hid
  else
  do _ <~ hid_data_write hid_data (set_hd_sensor_idx sensor_idx);
  do _ <~ hid_data_write hid_data (set_hd_pci_dev pci_dev);
  do _ <~ hid_data_write hid_data (set_hd_hid hid);
  do _ <~ hid_data_write hid_data (set_hd_cpu_addr NULL);
  let rc := get_descriptor_size sensor_idx AMD_SFH_INPUT_REPORT in
  if rc <? 0 then
    do _ <~ hid_err hid "Failed to get input descriptor size!";
    destroy_hid_device hid
  else
  do _ <~ hid_data_write hid_data (set_hd_report_size rc);
  do report_buf <~ devm_kzalloc (buf_alloc_ok k) hid (Bytes (zeroed_bytes rc));
  do _ <~ hid_data_write hid_data (set_hd_report_buf report_buf);
  if negb (truthy report_buf) then
    do _ <~ hid_err hid "Failed to allocate memory for report buffer!";
    destroy_hid_device hid
  else
  do _ <~ hid_write hid (set_hid_driver_data hid_data);
  do rc <~ hid_add_device (add_device_rc k) hid;
  if nonzero rc then
    do _ <~ hid_err hid "Failed to add HID device: %d";
    destroy_hid_device hid
  else
  ret hid.

(** [i] follows the C variable through its four post-increments. *)
Definition amd_sfh_client_init (privdata : amd_sfh_data) : M amd_sfh_data :=
  let i := 0%nat in
  let pci_dev := sfh_pci_dev privdata in
  let sensor_mask := amd_sfh_get_sensor_mask pci_dev in
  do privdata <~
    (if nonzero (Z.land sensor_mask ACCEL_MASK)
     then do hid <~ amd_sfh_hid_probe pci_dev ACCEL_IDX;
          sensors_store privdata i hid
     else sensors_store privdata i NULL);
  let i := S i in
  do privdata <~
    (if nonzero (Z.land sensor_mask GYRO_MASK)
     then do hid <~ amd_sfh_hid_probe pci_dev GYRO_IDX;
          sensors_store privdata i hid
     else sensors_store privdata i NULL);
  let i := S i in
  do privdata <~
    (if nonzero (Z.land sensor_mask MAGNO_MASK)
     then do hid <~ amd_sfh_hid_probe pci_dev MAG_IDX;
          sensors_store privdata i hid
     else sensors_store privdata i NULL);
  let i := S i in
  do privdata <~
    (if nonzero (Z.land sensor_mask ALS_MASK)
     then do hid <~ amd_sfh_hid_probe pci_dev ALS_IDX;
          sensors_store privdata i hid
     else sensors_store privdata i NULL);
  ret privdata.

End Client.

(** The body of the loop of [amd_sfh_client_deinit], and the loop with
    [n] iterations left, starting at index [i]. *)
Definition deinit_body (i : nat) (privdata : amd_sfh_data) : M amd_sfh_data :=
  do _ <~ (if truthy (sensors_load privdata i)
           then hid_destroy_device (sensors_load privdata i)
           else ret tt);
  sensors_store privdata i NULL.

Fixpoint deinit_loop (n i : nat) (privdata : amd_sfh_data) : M amd_sfh_data :=
  match n with
  | O => ret privdata
  | S n' =>
      do privdata <~ deinit_body i privdata;
      deinit_loop n' (S i) privdata
  end.

Definition amd_sfh_client_deinit (privdata : amd_sfh_data) : M amd_sfh_data :=
  deinit_loop AMD_SFH_MAX_SENSORS 0 privdata.

(** ** Vocabulary for the statements *)

(** Reading an event list. *)
Definition allocated (evs : list event) : list nat :=
  omap (λ e, match e with EvAlloc a => Some a | _ => None end) evs.
Definition released (evs : list event) : list nat :=
  omap (λ e, match e with EvFree a => Some a | _ => None end) evs.
Definition registered (evs : list event) : list nat :=
  omap (λ e, match e with EvRegister a => Some a | _ => None end) evs.
Definition unregistered (evs : list event) : list nat :=
  omap (λ e, match e with EvUnregister a => Some a | _ => None end) evs.
Definition destroy_calls (evs : list event) : list ptr :=
  omap (λ e, match e with EvDestroy p => Some p | _ => None end) evs.
Definition faults (evs : list event) : list ptr :=
  omap (λ e, match e with EvFault p => Some p | _ => None end) evs.
Definition stores (evs : list event) : list (nat * ptr) :=
  omap (λ e, match e with EvStore i p => Some (i, p) | _ => None end) evs.
Definition warnings (evs : list event) : list string :=
  omap (λ e, match e with EvLog KERN_WARNING msg => Some msg | _ => None end) evs.

Definition errors (evs : list event) : list string :=
  omap (λ e, match e with EvLog KERN_ERR msg => Some msg | _ => None end) evs.

(** [e] in front of the events of [r]. *)
Definition log_before {A} (e : list event) (r : A * gmap nat obj * list event)
    : A * gmap nat obj * list event :=
  (r.1.1, r.1.2, e ++ r.2).

(** The four sensor kinds, in the order [amd_sfh_client_init] goes
    through them, with the index handed to the probe, the mask bit
    tested and the position written in the [sensors] array. *)
Inductive sensor_kind : Type :=
| Accelerometer
| Gyroscope
| Magnetometer
| AmbientLight.

#[global] Instance sensor_kind_eq_dec : EqDecision sensor_kind.
Proof. solve_decision. Defined.

Definition slot_of (K : sensor_kind) : nat :=
  match K with
  | Accelerometer => 0
  | Gyroscope => 1
  | Magnetometer => 2
  | AmbientLight => 3
  end.

(** A slot of the registry is absent when it holds [NULL]. *)
Inductive slot_state : Type := Absent | Present.

Definition state_of (p : ptr) : slot_state :=
  match p with NULL => Absent | _ => Present end.

(** [p] points to a device that is on the heap and on the HID bus. *)
Definition live_device (h : gmap nat obj) (p : ptr) : Prop :=
  ∃ a d, p = Ptr a ∧ h !! a = Some (Hid d) ∧ hid_added d = true.

(** The sensor index recorded in the driver data of the device at [p]. *)
Definition device_sensor_idx (h : gmap nat obj) (p : ptr) : option Z :=
  match p with
  | Ptr a =>
      match h !! a with
      | Some (Hid d) =>
          match hid_driver_data d with
          | Ptr r =>
              match h !! r with
              | Some (HidData x) => Some (hd_sensor_idx x)
              | _ => None
              end
          | _ => None
          end
      | _ => None
      end
  | _ => None
  end.

(** The allocations a device pointer stands for: the device and its
    managed allocations. *)
Definition footprint (h : gmap nat obj) (p : ptr) : list nat :=
  match p with
  | Ptr a =>
      match h !! a with
      | Some (Hid d) => a :: hid_devres d
      | _ => []
      end
  | _ => []
  end.

(** The steps of [amd_sfh_hid_probe] that can fail, in program order. *)
Inductive failure_point : Type :=
| FailHidAlloc          (* [hid_allocate_device] *)
| FailDataAlloc         (* [devm_kzalloc] of the driver data *)
| FailDescriptorSize    (* [get_descriptor_size] *)
| FailBufAlloc          (* [devm_kzalloc] of the report buffer *)
| FailAddDevice.        (* [hid_add_device] *)

Section Vocabulary.
Context {P : platform} {E : env}.

Definition idx_of (K : sensor_kind) : Z :=
  match K with
  | Accelerometer => ACCEL_IDX
  | Gyroscope => GYRO_IDX
  | Magnetometer => MAG_IDX
  | AmbientLight => ALS_IDX
  end.

Definition mask_of (K : sensor_kind) : Z :=
  match K with
  | Accelerometer => ACCEL_MASK
  | Gyroscope => GYRO_MASK
  | Magnetometer => MAGNO_MASK
  | AmbientLight => ALS_MASK
  end.

(** The bit of [K] is set in the mask [m]. *)
Definition bit_set (m : Z) (K : sensor_kind) : bool :=
  nonzero (Z.land m (mask_of K)).

(** The first step the environment lets fail while [sensor_idx] is
    probed, if any. *)
Definition first_failure (sensor_idx : Z) : option failure_point :=
  let k := kernel_outcomes sensor_idx in
  if negb (hid_alloc_ok k) then Some FailHidAlloc
  else if negb (data_alloc_ok k) then Some FailDataAlloc
  else if get_descriptor_size sensor_idx AMD_SFH_INPUT_REPORT <? 0
       then Some FailDescriptorSize
  else if negb (buf_alloc_ok k) then Some FailBufAlloc
  else if nonzero (add_device_rc k) then Some FailAddDevice
  else None.

Definition probe_succeeds (sensor_idx : Z) : bool :=
  match first_failure sensor_idx with None => true | Some _ => false end.

(** The diagnostics of the two string copies. *)
Definition name_warning (sensor_idx : Z) : list event :=
  if sizeof_hid_name
       <=? to_size_t (strscpy "" (amd_sfh_get_sensor_name sensor_idx)
                        sizeof_hid_name).2
  then [EvLog KERN_WARNING "Could not set HID device name."]
  else [].

Definition phys_warning : list event :=
  if sizeof_hid_phys
       <=? to_size_t (strscpy "" AMD_SFH_PHY_DEV sizeof_hid_phys).2
  then [EvLog KERN_WARNING "Could not set HID device location."]
  else [].

(** The device and the driver data a successful probe leaves behind,
    for the device at [a] with driver data at [r1] and buffer at [r2]. *)
Definition probed_hid (sensor_idx : Z) (r1 r2 : nat) : hid_device :=
  mk_hid_device BUS_I2C HID_GROUP_SENSOR_HUB AMD_SFH_HID_VENDOR
    AMD_SFH_HID_PRODUCT AMD_SFH_HID_VERSION HID_TYPE_OTHER
    amd_sfh_hid_ll_driver
    (strscpy "" (amd_sfh_get_sensor_name sensor_idx) sizeof_hid_name).1
    (strscpy "" AMD_SFH_PHY_DEV sizeof_hid_phys).1
    (Ptr r1) [r2; r1] true.

Definition probed_data (pci_dev : ptr) (sensor_idx : Z) (a r2 : nat)
    : amd_sfh_hid_data :=
  mk_hid_data sensor_idx pci_dev (Ptr a) NULL
    (get_descriptor_size sensor_idx AMD_SFH_INPUT_REPORT) (Ptr r2).

(** The events of a probe that fails at [fp]. *)
Definition failure_events (sensor_idx : Z) (fp : failure_point)
    (a r1 r2 : nat) : list event :=
  match fp with
  | FailHidAlloc => [EvLog KERN_ERR "Failed to allocate HID device!"]
  | FailDataAlloc =>
      [EvAlloc a] ++ name_warning sensor_idx ++ phys_warning
      ++ [EvDestroy (Ptr a); EvFree a]
  | FailDescriptorSize =>
      [EvAlloc a] ++ name_warning sensor_idx ++ phys_warning
      ++ [EvAlloc r1; EvLog KERN_ERR "Failed to get input descriptor size!";
          EvDestroy (Ptr a); EvFree r1; EvFree a]
  | FailBufAlloc =>
      [EvAlloc a] ++ name_warning sensor_idx ++ phys_warning
      ++ [EvAlloc r1;
          EvLog KERN_ERR "Failed to allocate memory for report buffer!";
          EvDestroy (Ptr a); EvFree r1; EvFree a]
  | FailAddDevice =>
      [EvAlloc a] ++ name_warning sensor_idx ++ phys_warning
      ++ [EvAlloc r1; EvAlloc r2; EvLog KERN_ERR "Failed to add HID device: %d";
          EvDestroy (Ptr a); EvFree r2; EvFree r1; EvFree a]
  end.

(** The addresses the allocator hands out, on the heap [h], to the
    device, its driver data and its report buffer. *)
Definition addr_hid (h : gmap nat obj) : nat := fresh (dom h).
Definition addr_data (h : gmap nat obj) : nat :=
  fresh ({[addr_hid h]} ∪ dom h).
Definition addr_buf (h : gmap nat obj) : nat :=
  fresh ({[addr_data h]} ∪ ({[addr_hid h]} ∪ dom h)).

(** The heap and the events of a probe that succeeds. *)
Definition success_heap (pci_dev : ptr) (sensor_idx : Z) (h : gmap nat obj)
    : gmap nat obj :=
  <[addr_buf h :=
      Bytes (zeroed_bytes (get_descriptor_size sensor_idx AMD_SFH_INPUT_REPORT))]>
    (<[addr_data h :=
         HidData (probed_data pci_dev sensor_idx (addr_hid h) (addr_buf h))]>
       (<[addr_hid h :=
            Hid (probed_hid sensor_idx (addr_data h) (addr_buf h))]> h)).

Definition success_events (sensor_idx : Z) (a r1 r2 : nat) : list event :=
  [EvAlloc a] ++ name_warning sensor_idx ++ phys_warning
  ++ [EvAlloc r1; EvAlloc r2; EvRegister a].

(** What a probe of [sensor_idx] on the heap [h] comes to. *)
Definition probe_result (pci_dev : ptr) (sensor_idx : Z) (h : gmap nat obj)
    : ptr * gmap nat obj * list event :=
  match first_failure sensor_idx with
  | None =>
      (Ptr (addr_hid h), success_heap pci_dev sensor_idx h,
       success_events sensor_idx (addr_hid h) (addr_data h) (addr_buf h))
  | Some fp =>
      (NULL, h,
       failure_events sensor_idx fp (addr_hid h) (addr_data h) (addr_buf h))
  end.

(** One of the four blocks of [amd_sfh_client_init]. *)
Definition init_slot (bit : bool) (pci_dev : ptr) (sensor_idx : Z) (i : nat)
    (privdata : amd_sfh_data) : M amd_sfh_data :=
  if bit
  then do hid <~ amd_sfh_hid_probe pci_dev sensor_idx;
       sensors_store privdata i hid
  else sensors_store privdata i NULL.

(** What one block of [amd_sfh_client_init] does to the heap: a probe
    when the bit is set, nothing otherwise. *)
Definition attempt (bit : bool) (pci_dev : ptr) (sensor_idx : Z)
    (h : gmap nat obj) : ptr * gmap nat obj * list event :=
  if bit then probe_result pci_dev sensor_idx h else (NULL, h, []).

(** The blocks for the kinds [Ks] one after the other: the pointers
    stored, the final heap and all events. *)
Fixpoint attempt_all (mask : Z) (pci_dev : ptr) (Ks : list sensor_kind)
    (h : gmap nat obj) : list ptr * gmap nat obj * list event :=
  match Ks with
  | [] => ([], h, [])
  | K :: Ks' =>
      let r := attempt (bit_set mask K) pci_dev (idx_of K) h in
      let r' := attempt_all mask pci_dev Ks' (heap_of r) in
      (value r :: value r', heap_of r',
       events r ++ [EvStore (slot_of K) (value r)] ++ events r')
  end.

End Vocabulary.

Definition all_kinds : list sensor_kind :=
  [Accelerometer; Gyroscope; Magnetometer; AmbientLight].

(** What one iteration of the loop of [amd_sfh_client_deinit] does to
    the heap. *)
Definition teardown (p : ptr) (h : gmap nat obj)
    : unit * gmap nat obj * list event :=
  if truthy p then hid_destroy_device p h else (tt, h, []).

(** The iterations for the slots holding [ps], the first of them at
    index [i]. *)
Fixpoint teardown_all (ps : list ptr) (i : nat) (h : gmap nat obj)
    : unit * gmap nat obj * list event :=
  match ps with
  | [] => (tt, h, [])
  | p :: ps' =>
      let r := teardown p h in
      let r' := teardown_all ps' (S i) (heap_of r) in
      (tt, heap_of r', events r ++ [EvStore i NULL] ++ events r')
  end.

(** The addresses among the registry entries [ps]. *)
Definition addrs_of (ps : list ptr) : list nat :=
  omap (λ p, match p with Ptr a => Some a | _ => None end) ps.

(** A registry entry is in order on the heap [h]: it is [NULL], or it
    points to a device that is on the bus. *)
Definition device_ok (h : gmap nat obj) (p : ptr) : Prop :=
  p = NULL ∨ live_device h p.

(** The registry entries [ps] are in order on [h]: each of them is,
    no allocation belongs to two of them, and all their allocations
    are on the heap. *)
Definition registry_ok (h : gmap nat obj) (ps : list ptr) : Prop :=
  Forall (device_ok h) ps
  ∧ NoDup (ps ≫= footprint h)
  ∧ ∀ x, x ∈ ps ≫= footprint h → is_Some (h !! x).

(** ** The life cycle of the registry *)

(** The driver data together with the kernel heap. *)
Definition sys : Type := amd_sfh_data * gmap nat obj.

Definition sys_of (r : amd_sfh_data * gmap nat obj * list event) : sys :=
  (value r, heap_of r).

Section Lifecycle.
Context {P : platform} {E : env}.

(** The states a run reaches that starts in [s0] with one
    [amd_sfh_client_init] and goes on with calls of
    [amd_sfh_client_deinit]. *)
Inductive initialised (s0 : sys) : sys → Prop :=
| initialised_init :
    initialised s0 (sys_of (amd_sfh_client_init s0.1 s0.2))
| initialised_deinit s :
    initialised s0 s →
    initialised s0 (sys_of (amd_sfh_client_deinit s.1 s.2)).

(** The steps of such a run, each with the events it produces. *)
Inductive lifecycle_step (s0 : sys) : sys → list event → sys → Prop :=
| step_init :
    lifecycle_step s0 s0
      (events (amd_sfh_client_init s0.1 s0.2))
      (sys_of (amd_sfh_client_init s0.1 s0.2))
| step_deinit s :
    initialised s0 s →
    lifecycle_step s0 s
      (events (amd_sfh_client_deinit s.1 s.2))
      (sys_of (amd_sfh_client_deinit s.1 s.2)).

End Lifecycle.

(** The state machine of one slot, following the words of the
    specification: what slot [i] may hold before and after a step that
    takes the heap from [h] to [h'] and produces the events [evs].

    - Absent to Present: a device has been created, that is, its
      address was not on the heap before, it has been registered during
      the step, and it is on the heap and on the bus afterwards.
    - Absent to Absent.
    - Present to Absent: the occupant was a live device, it has been
      destroyed before the slot was first written, and it is no longer
      on the heap. *)
Inductive slot_transition (h h' : gmap nat obj) (evs : list event) (i : nat)
    : ptr → ptr → Prop :=
| absent_to_present a :
    h !! a = None →
    EvRegister a ∈ evs →
    live_device h' (Ptr a) →
    slot_transition h h' evs i NULL (Ptr a)
| absent_to_absent :
    slot_transition h h' evs i NULL NULL
| present_to_absent a pre post :
    live_device h (Ptr a) →
    evs = pre ++ EvStore i NULL :: post →
    EvDestroy (Ptr a) ∈ pre →
    (∀ p, EvStore i p ∉ pre) →
    h' !! a = None →
    slot_transition h h' evs i (Ptr a) NULL.

(** ** Concrete platforms and environments

    Used to run the statements below on actual values. *)

(** One admissible choice of the constants; the kernel constants have
    the values Linux gives them on x86-64. *)
Definition example_platform : platform := {|
  ACCEL_IDX := 0;
  GYRO_IDX := 1;
  MAG_IDX := 2;
  ALS_IDX := 19;
  ACCEL_MASK := 1;
  GYRO_MASK := 2;
  MAGNO_MASK := 4;
  ALS_MASK := 524288;
  AMD_SFH_INPUT_REPORT := 1;
  BUS_I2C := 0x18;
  HID_GROUP_SENSOR_HUB := 0x0003;
  HID_TYPE_OTHER := 0;
  sizeof_hid_name := 128;
  sizeof_hid_phys := 64;
  SIZE_T_BITS := 64
|}.

(** The same with identity fields too narrow for any of the strings. *)
Definition narrow_platform : platform := {|
  ACCEL_IDX := 0;
  GYRO_IDX := 1;
  MAG_IDX := 2;
  ALS_IDX := 19;
  ACCEL_MASK := 1;
  GYRO_MASK := 2;
  MAGNO_MASK := 4;
  ALS_MASK := 524288;
  AMD_SFH_INPUT_REPORT := 1;
  BUS_I2C := 0x18;
  HID_GROUP_SENSOR_HUB := 0x0003;
  HID_TYPE_OTHER := 0;
  sizeof_hid_name := 8;
  sizeof_hid_phys := 16;
  SIZE_T_BITS := 64
|}.

Definition all_ok : outcomes := mk_outcomes true true true 0.

(** Every sensor in [mask] is there, every report has [size] bytes and
    the kernel never fails. *)
Definition friendly_env (mask size : Z) : env := {|
  amd_sfh_get_sensor_mask := λ _, mask;
  get_descriptor_size := λ _ _, size;
  kernel_outcomes := λ _, all_ok
|}.

(** As [friendly_env], except that the kernel answers [bad_outcomes]
    while the sensor [bad] is probed. *)
Definition hostile_env (mask size bad : Z) (bad_outcomes : outcomes) : env := {|
  amd_sfh_get_sensor_mask := λ _, mask;
  get_descriptor_size := λ _ _, size;
  kernel_outcomes := λ k, if k =? bad then bad_outcomes else all_ok
|}.

(** The environment [E] with another sensor mask. *)
Definition with_mask (E : env) (mask : Z) : env := {|
  amd_sfh_get_sensor_mask := λ _, mask;
  get_descriptor_size := @get_descriptor_size E;
  kernel_outcomes := @kernel_outcomes E
|}.

(** A driver data block whose registry has never been written. *)
Definition fresh_privdata (pci_dev : ptr) : amd_sfh_data :=
  mk_amd_sfh_data pci_dev (replicate AMD_SFH_MAX_SENSORS NULL).

(** * Properties *)

(** ** Running computations *)

Lemma bind_run {A B} (m : M A) (k : A → M B) h x h1 e1 :
  m h = (x, h1, e1) → bind m k h = log_before e1 (k x h1).
Proof. unfold bind, log_before. intros ->. by destruct (k x h1) as [[??]?]. Qed.

Lemma bind_eq {A B} (m : M A) (k : A → M B) h :
  bind m k h = log_before (events (m h)) (k (value (m h)) (heap_of (m h))).
Proof. destruct (m h) as [[x h1] e1] eqn:Hm. by apply bind_run. Qed.

Lemma log_before_nil {A} (r : A * gmap nat obj * list event) :
  log_before [] r = r.
Proof. by destruct r as [[??]?]. Qed.

Lemma log_before_log_before {A} e1 e2 (r : A * gmap nat obj * list event) :
  log_before e1 (log_before e2 r) = log_before (e1 ++ e2) r.
Proof. unfold log_before. simpl. by rewrite app_assoc. Qed.

Lemma log_before_triple {A} e (x : A) h e' :
  log_before e (x, h, e') = (x, h, e ++ e').
Proof. reflexivity. Qed.

Lemma cond_warn_run (c : bool) hid msg h :
  (if c then hid_warn hid msg else ret tt) h
  = (tt, h, if c then [EvLog KERN_WARNING msg] else []).
Proof. by destruct c. Qed.

Lemma hid_destroy_device_live h a d :
  h !! a = Some (Hid d) →
  hid_destroy_device (Ptr a) h
  = (tt, delete a (foldr delete h (hid_devres d)),
     [EvDestroy (Ptr a)]
       ++ (if hid_added d then [EvUnregister a] else [])
       ++ (EvFree <$> hid_devres d) ++ [EvFree a]).
Proof. unfold hid_destroy_device. by intros ->. Qed.

(** ** The allocator *)

Lemma addr_fresh (h : gmap nat obj) :
  h !! addr_hid h = None ∧ h !! addr_data h = None ∧ h !! addr_buf h = None
  ∧ addr_hid h ≠ addr_data h ∧ addr_hid h ≠ addr_buf h
  ∧ addr_data h ≠ addr_buf h.
Proof.
  pose proof (is_fresh (dom h)) as Ha.
  pose proof (is_fresh ({[addr_hid h]} ∪ dom h)) as Hb.
  pose proof (is_fresh ({[addr_data h]} ∪ ({[addr_hid h]} ∪ dom h))) as Hc.
  fold (addr_hid h) in Ha. fold (addr_data h) in Hb. fold (addr_buf h) in Hc.
  rewrite <- !not_elem_of_dom. set_solver.
Qed.

(** ** [amd_sfh_hid_probe] in closed form *)

Ltac step :=
  erewrite bind_run; [ | first [ apply cond_warn_run | reflexivity ] ];
  cbn [IS_ERR truthy negb].

Ltac record_norm :=
  cbv beta iota delta
      [on_hid on_hid_data
       set_hid_bus set_hid_group set_hid_vendor set_hid_product
       set_hid_version set_hid_type set_hid_ll_driver set_hid_name
       set_hid_phys set_hid_driver_data set_hid_devres set_hid_added
       hid_bus hid_group hid_vendor hid_product hid_version hid_type
       hid_ll_driver hid_name hid_phys hid_driver_data hid_devres hid_added
       set_hd_sensor_idx set_hd_pci_dev set_hd_hid set_hd_cpu_addr
       set_hd_report_size set_hd_report_buf
       hd_sensor_idx hd_pci_dev hd_hid hd_cpu_addr hd_report_size
       hd_report_buf zeroed_hid_device zeroed_hid_data].

Ltac heap_norm h :=
  repeat first
    [ rewrite alter_insert_eq
    | rewrite alter_insert_ne by congruence
    | rewrite dom_insert_L
    | progress (fold (addr_hid h); fold (addr_data h); fold (addr_buf h)) ];
  record_norm.

Ltac destroy_step :=
  unfold destroy_hid_device, err_hid_alloc;
  erewrite bind_run;
    [ | apply hid_destroy_device_live;
        repeat (rewrite lookup_insert_ne by congruence);
        apply lookup_insert_eq ].

Ltac finish :=
  rewrite ?log_before_log_before; unfold ret; rewrite log_before_triple;
  unfold failure_events, success_events, name_warning, phys_warning;
  record_norm;
  cbn [app fmap list_fmap foldr];
  rewrite <- ?app_assoc; cbn [app];
  rewrite ?app_nil_r.

Ltac lookup_solve :=
  repeat first
    [ rewrite lookup_insert_eq
    | rewrite lookup_delete_eq
    | rewrite lookup_insert_ne by congruence
    | rewrite lookup_delete_ne by congruence ];
  first [ assumption | reflexivity ].

Ltac heap_restore :=
  repeat first
    [ rewrite delete_insert_id by lookup_solve
    | rewrite delete_insert_ne by congruence ].

Section Probe.
Context {P : platform} {E : env}.

Lemma amd_sfh_hid_probe_run pci_dev sensor_idx h :
  amd_sfh_hid_probe pci_dev sensor_idx h = probe_result pci_dev sensor_idx h.
Proof.
  destruct (addr_fresh h) as (Ha & Hr1 & Hr2 & Har1 & Har2 & Hr12).
  unfold probe_result, first_failure, amd_sfh_hid_probe.
  destruct (hid_alloc_ok (kernel_outcomes sensor_idx)); cbn [negb].
  2:{ do 2 step. reflexivity. }
  step. do 11 step. heap_norm h.
  destruct (data_alloc_ok (kernel_outcomes sensor_idx)); cbn [negb].
  2:{ step. destroy_step. finish. by heap_restore. }
  do 5 step. heap_norm h.
  destruct (get_descriptor_size sensor_idx AMD_SFH_INPUT_REPORT <? 0).
  { step. destroy_step. finish. by heap_restore. }
  step.
  destruct (buf_alloc_ok (kernel_outcomes sensor_idx)); cbn [negb].
  2:{ do 3 step. heap_norm h. destroy_step. finish. by heap_restore. }
  do 3 step. heap_norm h.
  unfold nonzero.
  destruct (add_device_rc (kernel_outcomes sensor_idx) =? 0) eqn:Hrc;
    cbn [negb].
  2:{ erewrite bind_run; [ | unfold hid_add_device; rewrite Hrc; reflexivity ].
      rewrite Hrc; cbn [negb]. step. destroy_step. finish. by heap_restore. }
  erewrite bind_run; [ | unfold hid_add_device; rewrite Hrc; reflexivity ].
  change (0 =? 0) with true; cbn [negb]. heap_norm h. finish.
  reflexivity.
Qed.

End Probe.

(** ** Reading events *)

Lemma allocated_app e1 e2 : allocated (e1 ++ e2) = allocated e1 ++ allocated e2.
Proof. apply omap_app. Qed.
Lemma released_app e1 e2 : released (e1 ++ e2) = released e1 ++ released e2.
Proof. apply omap_app. Qed.
Lemma registered_app e1 e2 :
  registered (e1 ++ e2) = registered e1 ++ registered e2.
Proof. apply omap_app. Qed.
Lemma unregistered_app e1 e2 :
  unregistered (e1 ++ e2) = unregistered e1 ++ unregistered e2.
Proof. apply omap_app. Qed.
Lemma destroy_calls_app e1 e2 :
  destroy_calls (e1 ++ e2) = destroy_calls e1 ++ destroy_calls e2.
Proof. apply omap_app. Qed.
Lemma faults_app e1 e2 : faults (e1 ++ e2) = faults e1 ++ faults e2.
Proof. apply omap_app. Qed.
Lemma stores_app e1 e2 : stores (e1 ++ e2) = stores e1 ++ stores e2.
Proof. apply omap_app. Qed.
Lemma warnings_app e1 e2 : warnings (e1 ++ e2) = warnings e1 ++ warnings e2.
Proof. apply omap_app. Qed.

(** Releases that are a rearrangement of pairwise different
    allocations release each allocation once and nothing else. *)
Lemma released_exactly_once (al rl : list nat) :
  NoDup al → rl ≡ₚ al →
  ∀ a, count_occ Nat.eq_dec rl a = if decide (a ∈ al) then 1%nat else 0%nat.
Proof.
  intros Hnd Hperm a.
  rewrite (proj1 (Permutation_count_occ Nat.eq_dec rl al) Hperm a).
  case_decide as Hin.
  - apply NoDup_ListNoDup in Hnd. apply list_elem_of_In in Hin.
    by apply (proj1 (NoDup_count_occ' Nat.eq_dec al) Hnd).
  - apply count_occ_not_In. by rewrite <- list_elem_of_In.
Qed.

Ltac split_events :=
  rewrite ?allocated_app, ?released_app, ?registered_app, ?unregistered_app,
    ?destroy_calls_app, ?faults_app, ?stores_app, ?warnings_app.

Section ProbeFacts.
Context {P : platform} {E : env}.

(** The warnings are warnings and nothing else. *)
Lemma name_warning_cases k :
  name_warning k = [] ∨
  name_warning k = [EvLog KERN_WARNING "Could not set HID device name."].
Proof. unfold name_warning. case_match; auto. Qed.

Lemma phys_warning_cases :
  phys_warning = [] ∨
  phys_warning = [EvLog KERN_WARNING "Could not set HID device location."].
Proof. unfold phys_warning. case_match; auto. Qed.

Lemma probe_succeeds_None k : probe_succeeds k = true ↔ first_failure k = None.
Proof. unfold probe_succeeds. destruct (first_failure k); naive_solver. Qed.

Lemma probe_result_value pci_dev k h :
  value (probe_result pci_dev k h)
  = if probe_succeeds k then Ptr (addr_hid h) else NULL.
Proof.
  unfold probe_result, probe_succeeds. by destruct (first_failure k).
Qed.

Lemma probe_result_heap pci_dev k h :
  heap_of (probe_result pci_dev k h)
  = if probe_succeeds k then success_heap pci_dev k h else h.
Proof.
  unfold probe_result, probe_succeeds. by destruct (first_failure k).
Qed.

Lemma success_heap_lookup_hid pci_dev k h :
  success_heap pci_dev k h !! addr_hid h
  = Some (Hid (probed_hid k (addr_data h) (addr_buf h))).
Proof.
  destruct (addr_fresh h) as (Ha & Hr1 & Hr2 & Har1 & Har2 & Hr12).
  unfold success_heap. lookup_solve.
Qed.

Lemma success_heap_lookup_data pci_dev k h :
  success_heap pci_dev k h !! addr_data h
  = Some (HidData (probed_data pci_dev k (addr_hid h) (addr_buf h))).
Proof.
  destruct (addr_fresh h) as (Ha & Hr1 & Hr2 & Har1 & Har2 & Hr12).
  unfold success_heap. lookup_solve.
Qed.

Lemma success_heap_lookup_buf pci_dev k h :
  success_heap pci_dev k h !! addr_buf h
  = Some (Bytes (zeroed_bytes (get_descriptor_size k AMD_SFH_INPUT_REPORT))).
Proof. unfold success_heap. lookup_solve. Qed.

Lemma success_heap_lookup_old pci_dev k h x :
  is_Some (h !! x) → success_heap pci_dev k h !! x = h !! x.
Proof.
  destruct (addr_fresh h) as (Ha & Hr1 & Hr2 & _).
  intros [o Ho]. unfold success_heap.
  rewrite !lookup_insert_ne; [done | congruence..].
Qed.

Lemma success_heap_mono pci_dev k h : h ⊆ success_heap pci_dev k h.
Proof.
  apply map_subseteq_spec. intros x o Ho.
  rewrite success_heap_lookup_old; eauto.
Qed.

Lemma attempt_heap_mono b pci_dev k h : h ⊆ heap_of (attempt b pci_dev k h).
Proof.
  unfold attempt. destruct b; [|done].
  rewrite probe_result_heap. destruct (probe_succeeds k); [|done].
  apply success_heap_mono.
Qed.

End ProbeFacts.

(** ** [amd_sfh_client_init] in closed form *)

Section Init.
Context {P : platform} {E : env}.

Lemma init_slot_run bit pci_dev k i pd h :
  init_slot bit pci_dev k i pd h
  = (mk_amd_sfh_data (sfh_pci_dev pd)
       (<[i := value (attempt bit pci_dev k h)]> (sensors pd)),
     heap_of (attempt bit pci_dev k h),
     events (attempt bit pci_dev k h)
       ++ [EvStore i (value (attempt bit pci_dev k h))]).
Proof.
  unfold init_slot, attempt. destruct bit; [|reflexivity].
  rewrite bind_eq, amd_sfh_hid_probe_run.
  by destruct (probe_result pci_dev k h) as [[p h'] evs].
Qed.

Lemma amd_sfh_client_init_run pd h :
  length (sensors pd) = AMD_SFH_MAX_SENSORS →
  amd_sfh_client_init pd h
  = (mk_amd_sfh_data (sfh_pci_dev pd)
       (value (attempt_all (amd_sfh_get_sensor_mask (sfh_pci_dev pd))
                 (sfh_pci_dev pd) all_kinds h)),
     heap_of (attempt_all (amd_sfh_get_sensor_mask (sfh_pci_dev pd))
                (sfh_pci_dev pd) all_kinds h),
     events (attempt_all (amd_sfh_get_sensor_mask (sfh_pci_dev pd))
               (sfh_pci_dev pd) all_kinds h)).
Proof.
  intros Hlen. destruct pd as [pci_dev ps].
  destruct ps as [|p0 [|p1 [|p2 [|p3 [|]]]]]; try discriminate Hlen.
  unfold amd_sfh_client_init.
  cbn [sfh_pci_dev sensors].
  set (m := amd_sfh_get_sensor_mask pci_dev).
  erewrite bind_run by apply (init_slot_run (bit_set m Accelerometer)).
  erewrite bind_run by apply (init_slot_run (bit_set m Gyroscope)).
  erewrite bind_run by apply (init_slot_run (bit_set m Magnetometer)).
  erewrite bind_run by apply (init_slot_run (bit_set m AmbientLight)).
  unfold ret. rewrite !log_before_log_before, log_before_triple.
  cbn [sfh_pci_dev sensors all_kinds attempt_all idx_of slot_of
       value heap_of events fst snd].
  rewrite app_nil_r, <- !app_assoc. reflexivity.
Qed.

End Init.

(** ** [amd_sfh_client_deinit] in closed form *)

Lemma deinit_body_run i pd h :
  deinit_body i pd h
  = (mk_amd_sfh_data (sfh_pci_dev pd) (<[i := NULL]> (sensors pd)),
     heap_of (teardown (sensors_load pd i) h),
     events (teardown (sensors_load pd i) h) ++ [EvStore i NULL]).
Proof.
  unfold deinit_body, teardown. rewrite bind_eq.
  destruct (truthy (sensors_load pd i)); [|reflexivity].
  by destruct (hid_destroy_device (sensors_load pd i) h) as [[[] h'] evs].
Qed.

Lemma deinit_loop_run (n : nat) : ∀ (i : nat) pd h,
  (i + n)%nat = length (sensors pd) →
  deinit_loop n i pd h
  = (mk_amd_sfh_data (sfh_pci_dev pd)
       (take i (sensors pd) ++ replicate n NULL),
     heap_of (teardown_all (drop i (sensors pd)) i h),
     events (teardown_all (drop i (sensors pd)) i h)).
Proof.
  induction n as [|n IH]; intros i pd h Hlen.
  - cbn [deinit_loop replicate]. rewrite app_nil_r.
    rewrite take_ge, drop_ge by lia. by destruct pd.
  - destruct (lookup_lt_is_Some_2 (sensors pd) i) as [p Hp]; [lia|].
    cbn [deinit_loop]. rewrite bind_eq, deinit_body_run.
    cbn [value heap_of events fst snd].
    rewrite IH by (cbn [sensors]; rewrite length_insert; lia).
    cbn [sfh_pci_dev sensors].
    rewrite drop_insert_lt by lia.
    rewrite (take_S_r _ _ NULL)
      by (apply list_lookup_insert_eq; lia).
    rewrite take_insert_ge by lia.
    rewrite (drop_S _ _ _ Hp).
    unfold sensors_load. rewrite Hp. cbn [default teardown_all].
    unfold log_before. cbn [value heap_of events fst snd replicate].
    by rewrite <- !app_assoc.
Qed.

Lemma amd_sfh_client_deinit_run pd h :
  length (sensors pd) = AMD_SFH_MAX_SENSORS →
  amd_sfh_client_deinit pd h
  = (mk_amd_sfh_data (sfh_pci_dev pd) (replicate AMD_SFH_MAX_SENSORS NULL),
     heap_of (teardown_all (sensors pd) 0 h),
     events (teardown_all (sensors pd) 0 h)).
Proof.
  intros Hlen. unfold amd_sfh_client_deinit.
  rewrite deinit_loop_run by (rewrite Hlen; lia).
  by rewrite take_0, drop_0.
Qed.

(** ** Devices, footprints and the registry invariant *)

Lemma live_device_mono h h' p : h ⊆ h' → live_device h p → live_device h' p.
Proof.
  intros Hsub (a & d & -> & Ha & Hadd). exists a, d.
  eauto using lookup_weaken.
Qed.

Lemma device_ok_mono h h' p : h ⊆ h' → device_ok h p → device_ok h' p.
Proof. intros Hsub [->|Hl]; [by left | right; eauto using live_device_mono]. Qed.

Lemma footprint_mono h h' p :
  h ⊆ h' → device_ok h p → footprint h' p = footprint h p.
Proof.
  intros Hsub [->|(a & d & -> & Ha & _)]; [done|].
  cbn [footprint]. by rewrite (lookup_weaken _ _ _ _ Ha Hsub), Ha.
Qed.

Lemma footprints_mono h h' ps :
  h ⊆ h' → Forall (device_ok h) ps → ps ≫= footprint h' = ps ≫= footprint h.
Proof.
  intros Hsub. induction 1 as [|p ps Hp _ IH]; [done|].
  rewrite !bind_cons, IH. f_equal. by apply footprint_mono.
Qed.

Lemma device_sensor_idx_mono h h' p k :
  h ⊆ h' → device_sensor_idx h p = Some k → device_sensor_idx h' p = Some k.
Proof.
  intros Hsub. destruct p as [|a|]; try done. cbn [device_sensor_idx].
  destruct (h !! a) as [[d| |]|] eqn:Ha; try done.
  rewrite (lookup_weaken _ _ _ _ Ha Hsub).
  destruct (hid_driver_data d) as [|r|]; try done.
  destruct (h !! r) as [[|x|]|] eqn:Hr; try done.
  by rewrite (lookup_weaken _ _ _ _ Hr Hsub).
Qed.

Lemma registry_ok_nil h : registry_ok h [].
Proof.
  split_and!; [constructor | constructor | ].
  intros x Hx. by apply elem_of_nil in Hx.
Qed.

Lemma registry_ok_snoc_NULL h ps : registry_ok h ps → registry_ok h (ps ++ [NULL]).
Proof.
  intros (Hall & Hnd & Hdom). unfold registry_ok.
  rewrite bind_app, bind_cons. cbn [footprint mbind list_bind].
  rewrite !app_nil_r. split_and!; [|done..].
  apply Forall_app. split; [done|]. constructor; [by left | constructor].
Qed.

Lemma registry_ok_replicate_NULL h n : registry_ok h (replicate n NULL).
Proof.
  assert (replicate n NULL ≫= footprint h = []) as Hfp.
  { induction n as [|n IH]; [done|]. cbn [replicate]. by rewrite bind_cons, IH. }
  unfold registry_ok. rewrite Hfp. split_and!.
  - apply Forall_replicate. by left.
  - constructor.
  - intros x Hx. by apply elem_of_nil in Hx.
Qed.

Section ProbeInvariant.
Context {P : platform} {E : env}.

Lemma success_live pci_dev k h :
  live_device (success_heap pci_dev k h) (Ptr (addr_hid h)).
Proof.
  exists (addr_hid h), (probed_hid k (addr_data h) (addr_buf h)).
  split_and!; [done | apply success_heap_lookup_hid | done].
Qed.

Lemma success_footprint pci_dev k h :
  footprint (success_heap pci_dev k h) (Ptr (addr_hid h))
  = [addr_hid h; addr_buf h; addr_data h].
Proof. cbn [footprint]. by rewrite success_heap_lookup_hid. Qed.

Lemma success_sensor_idx pci_dev k h :
  device_sensor_idx (success_heap pci_dev k h) (Ptr (addr_hid h)) = Some k.
Proof.
  cbn [device_sensor_idx]. rewrite success_heap_lookup_hid.
  cbn [probed_hid hid_driver_data]. by rewrite success_heap_lookup_data.
Qed.

Lemma registry_ok_snoc_success pci_dev k h ps :
  registry_ok h ps →
  registry_ok (success_heap pci_dev k h) (ps ++ [Ptr (addr_hid h)]).
Proof.
  intros (Hall & Hnd & Hdom).
  destruct (addr_fresh h) as (Ha & Hr1 & Hr2 & Har1 & Har2 & Hr12).
  pose proof (success_heap_mono pci_dev k h) as Hsub.
  unfold registry_ok.
  rewrite bind_app, bind_cons. cbn [mbind list_bind]. rewrite app_nil_r.
  rewrite success_footprint, (footprints_mono h) by done.
  split_and!.
  - apply Forall_app. split.
    + eapply Forall_impl; [done|]. intros p. by apply device_ok_mono.
    + constructor; [|constructor]. right. apply success_live.
  - apply NoDup_app. split_and!; [done| |].
    + intros x Hx [->|[->|[->|[]%elem_of_nil]%elem_of_cons]%elem_of_cons]%elem_of_cons;
        destruct (Hdom _ Hx) as [o Ho]; congruence.
    + repeat (apply NoDup_cons_2;
                [rewrite ?elem_of_cons, elem_of_nil; intuition congruence|]).
      apply NoDup_nil_2.
  - intros x [Hx|Hx]%elem_of_app.
    + destruct (Hdom _ Hx) as [o Ho]. exists o. by eapply lookup_weaken.
    + apply elem_of_cons in Hx as [->|Hx];
        [rewrite success_heap_lookup_hid; eauto|].
      apply elem_of_cons in Hx as [->|Hx];
        [rewrite success_heap_lookup_buf; eauto|].
      apply elem_of_cons in Hx as [->|[]%elem_of_nil].
      rewrite success_heap_lookup_data; eauto.
Qed.

Lemma attempt_value bit pci_dev k h :
  value (attempt bit pci_dev k h)
  = if bit && probe_succeeds k then Ptr (addr_hid h) else NULL.
Proof.
  unfold attempt. destruct bit; [|done]. apply probe_result_value.
Qed.

Lemma attempt_heap bit pci_dev k h :
  heap_of (attempt bit pci_dev k h)
  = if bit && probe_succeeds k then success_heap pci_dev k h else h.
Proof.
  unfold attempt. destruct bit; [|done]. apply probe_result_heap.
Qed.

Lemma attempt_registry_ok bit pci_dev k h ps :
  registry_ok h ps →
  registry_ok (heap_of (attempt bit pci_dev k h))
    (ps ++ [value (attempt bit pci_dev k h)]).
Proof.
  intros Hok. rewrite attempt_value, attempt_heap.
  destruct (bit && probe_succeeds k).
  - by apply registry_ok_snoc_success.
  - by apply registry_ok_snoc_NULL.
Qed.

Lemma attempt_all_registry_ok mask pci_dev Ks : ∀ h ps,
  registry_ok h ps →
  registry_ok (heap_of (attempt_all mask pci_dev Ks h))
    (ps ++ value (attempt_all mask pci_dev Ks h)).
Proof.
  induction Ks as [|K Ks IH]; intros h ps Hok.
  - cbn. by rewrite app_nil_r.
  - cbn [attempt_all value heap_of fst snd].
    rewrite cons_middle, app_assoc. apply IH.
    by apply attempt_registry_ok.
Qed.

Lemma attempt_all_heap_mono mask pci_dev Ks : ∀ h,
  h ⊆ heap_of (attempt_all mask pci_dev Ks h).
Proof.
  induction Ks as [|K Ks IH]; intros h; [done|].
  cbn [attempt_all value heap_of fst snd].
  etrans; [apply (attempt_heap_mono (bit_set mask K) pci_dev (idx_of K))|].
  apply IH.
Qed.

End ProbeInvariant.

(** ** One iteration of the teardown loop *)

Lemma foldr_delete_subseteq (h : gmap nat obj) js : foldr delete h js ⊆ h.
Proof.
  induction js as [|j js IH]; [done|]. cbn [foldr].
  etrans; [apply delete_subseteq | done].
Qed.

Lemma teardown_heap p h :
  heap_of (teardown p h) = foldr delete h (footprint h p).
Proof.
  unfold teardown, hid_destroy_device.
  destruct p as [|a|e]; cbn [truthy footprint]; try done.
  by destruct (h !! a) as [[d| |]|].
Qed.

Lemma teardown_heap_sub p h : heap_of (teardown p h) ⊆ h.
Proof. rewrite teardown_heap. apply foldr_delete_subseteq. Qed.

Lemma destroy_calls_frees js : destroy_calls (EvFree <$> js) = [].
Proof. by induction js. Qed.
Lemma faults_frees js : faults (EvFree <$> js) = [].
Proof. by induction js. Qed.
Lemma stores_frees js : stores (EvFree <$> js) = [].
Proof. by induction js. Qed.
Lemma unregistered_frees js : unregistered (EvFree <$> js) = [].
Proof. by induction js. Qed.
Lemma released_frees js : released (EvFree <$> js) = js.
Proof. induction js as [|j js IH]; [done|]. cbn. f_equal. apply IH. Qed.

Lemma teardown_destroy_calls p h :
  destroy_calls (events (teardown p h)) = if truthy p then [p] else [].
Proof.
  unfold teardown.
  destruct p as [|a|e]; cbn [truthy]; try done.
  destruct (h !! a) as [[d| |]|] eqn:Ha;
    [rewrite (hid_destroy_device_live _ _ _ Ha)
    |unfold hid_destroy_device; by rewrite Ha..].
  cbn [events snd].
  split_events. rewrite destroy_calls_frees. by destruct (hid_added d).
Qed.

Lemma teardown_stores p h : stores (events (teardown p h)) = [].
Proof.
  unfold teardown.
  destruct p as [|a|e]; cbn [truthy]; try done.
  destruct (h !! a) as [[d| |]|] eqn:Ha;
    [rewrite (hid_destroy_device_live _ _ _ Ha)
    |unfold hid_destroy_device; by rewrite Ha..].
  cbn [events snd].
  split_events. rewrite stores_frees. by destruct (hid_added d).
Qed.

Lemma teardown_head p h :
  truthy p = true → ∃ evs, events (teardown p h) = EvDestroy p :: evs.
Proof.
  unfold teardown, hid_destroy_device. intros ->.
  destruct p as [|a|e]; [eauto | | eauto].
  destruct (h !! a) as [[d| |]|]; eauto.
Qed.

Lemma teardown_faults p h : device_ok h p → faults (events (teardown p h)) = [].
Proof.
  unfold teardown. intros [->|(a & d & -> & Ha & Hadd)]; [done|].
  cbn [truthy]. rewrite (hid_destroy_device_live _ _ _ Ha), Hadd.
  cbn [events snd].
  split_events. by rewrite faults_frees.
Qed.

Lemma teardown_unregistered p h :
  device_ok h p → unregistered (events (teardown p h)) = addrs_of [p].
Proof.
  unfold teardown. intros [->|(a & d & -> & Ha & Hadd)]; [done|].
  cbn [truthy]. rewrite (hid_destroy_device_live _ _ _ Ha), Hadd.
  cbn [events snd].
  split_events. by rewrite unregistered_frees.
Qed.

Lemma teardown_released p h :
  device_ok h p → released (events (teardown p h)) ≡ₚ footprint h p.
Proof.
  unfold teardown. intros [->|(a & d & -> & Ha & Hadd)]; [done|].
  cbn [truthy footprint]. rewrite (hid_destroy_device_live _ _ _ Ha), Hadd, Ha.
  cbn [events snd].
  split_events. rewrite released_frees. cbn.
  symmetry. apply Permutation_cons_append.
Qed.

(** Deleting allocations that do not belong to a device leaves the
    device as it was. *)
Lemma device_ok_foldr_delete h js q :
  device_ok h q → (∀ x, x ∈ footprint h q → x ∉ js) →
  device_ok (foldr delete h js) q
  ∧ footprint (foldr delete h js) q = footprint h q.
Proof.
  intros [->|(a & d & -> & Ha & Hadd)] Hdisj; [by split; [left|]|].
  assert (foldr delete h js !! a = Some (Hid d)) as Ha'.
  { rewrite lookup_foldr_delete_not_elem_of; [done|].
    apply Hdisj. cbn [footprint]. rewrite Ha. apply elem_of_cons. by left. }
  split.
  - right. by exists a, d.
  - cbn [footprint]. by rewrite Ha, Ha'.
Qed.

Lemma registry_ok_teardown h p ps :
  registry_ok h (p :: ps) →
  registry_ok (heap_of (teardown p h)) ps
  ∧ ps ≫= footprint (heap_of (teardown p h)) = ps ≫= footprint h.
Proof.
  rewrite teardown_heap. unfold registry_ok. rewrite bind_cons.
  intros (Hall & Hnd & Hdom).
  apply Forall_cons in Hall as [Hp Hall].
  apply NoDup_app in Hnd as (Hndp & Hdisj & Hnd).
  assert (Forall (device_ok (foldr delete h (footprint h p))) ps
          ∧ ps ≫= footprint (foldr delete h (footprint h p))
            = ps ≫= footprint h) as [Hall' Hfp].
  { clear Hnd Hdom. induction Hall as [|q ps Hq Hall IH]; [by split|].
    rewrite !bind_cons.
    destruct (device_ok_foldr_delete h (footprint h p) q Hq) as [Hq' Hfq].
    { intros x Hx Hxp. apply (Hdisj x Hxp).
      rewrite bind_cons. apply elem_of_app. by left. }
    destruct IH as [IH1 IH2].
    { intros x Hxp Hx. apply (Hdisj x Hxp).
      rewrite bind_cons. apply elem_of_app. by right. }
    split; [by constructor | by rewrite Hfq, IH2]. }
  rewrite Hfp. split_and!; [done | done | | done].
  intros x Hx. rewrite lookup_foldr_delete_not_elem_of.
  - apply Hdom, elem_of_app. by right.
  - intros Hxp. by apply (Hdisj x Hxp).
Qed.

(** ** The whole teardown loop *)

Lemma teardown_all_stores ps : ∀ i h,
  stores (events (teardown_all ps i h))
  = (λ j, (j, NULL)) <$> seq i (length ps).
Proof.
  induction ps as [|p ps IH]; intros i h; [done|].
  cbn [teardown_all events snd length seq]. split_events.
  rewrite teardown_stores, IH. reflexivity.
Qed.

Lemma teardown_all_destroy_calls ps : ∀ i h,
  destroy_calls (events (teardown_all ps i h)) = filter (λ p, p ≠ NULL) ps.
Proof.
  induction ps as [|p ps IH]; intros i h; [done|].
  cbn [teardown_all events snd]. split_events.
  rewrite teardown_destroy_calls, IH, filter_cons.
  destruct p; cbn [truthy]; case_decide; done.
Qed.

Lemma teardown_all_heap_sub ps : ∀ i h, heap_of (teardown_all ps i h) ⊆ h.
Proof.
  induction ps as [|p ps IH]; intros i h; [done|].
  cbn [teardown_all heap_of fst snd].
  etrans; [apply IH | apply teardown_heap_sub].
Qed.

(** A device that was on the heap and in the registry is gone after
    the loop, whatever else the registry holds. *)
Lemma teardown_all_gone ps : ∀ i h a,
  Ptr a ∈ ps →
  h !! a = None ∨ (∃ d, h !! a = Some (Hid d)) →
  heap_of (teardown_all ps i h) !! a = None.
Proof.
  induction ps as [|p ps IH]; intros i h a Hin Hlive.
  { by apply elem_of_nil in Hin. }
  cbn [teardown_all heap_of fst snd].
  pose proof (teardown_heap_sub p h) as Hsub.
  apply elem_of_cons in Hin as [<-|Hin].
  - eapply lookup_weaken_None; [|apply teardown_all_heap_sub].
    rewrite teardown_heap. cbn [footprint].
    destruct Hlive as [Ha|[d Ha]]; rewrite Ha; cbn [foldr]; [done|].
    apply lookup_delete_eq.
  - apply IH; [done|].
    destruct (heap_of (teardown p h) !! a) as [o|] eqn:Ha'; [|by left].
    right. pose proof (lookup_weaken _ _ _ _ Ha' Hsub) as Ha.
    destruct Hlive as [Hn|[d Hd]]; [congruence|].
    exists d. congruence.
Qed.

Lemma teardown_all_ok ps : ∀ i h,
  registry_ok h ps →
  faults (events (teardown_all ps i h)) = []
  ∧ unregistered (events (teardown_all ps i h)) = addrs_of ps
  ∧ released (events (teardown_all ps i h)) ≡ₚ ps ≫= footprint h
  ∧ (∀ x, x ∈ ps ≫= footprint h → heap_of (teardown_all ps i h) !! x = None)
  ∧ (∀ x, x ∉ ps ≫= footprint h → heap_of (teardown_all ps i h) !! x = h !! x).
Proof.
  induction ps as [|p ps IH]; intros i h Hok.
  { split_and!; try done. intros x Hx. by apply elem_of_nil in Hx. }
  destruct (registry_ok_teardown _ _ _ Hok) as [Hok' Hfp].
  destruct (IH (S i) _ Hok') as (Hf & Hu & Hr & Hgone & Hkeep).
  destruct Hok as (Hall & Hnd & Hdom).
  apply Forall_cons in Hall as [Hp Hall].
  rewrite bind_cons in Hnd. apply NoDup_app in Hnd as (_ & Hdisj & _).
  cbn [teardown_all heap_of events fst snd]. split_events.
  rewrite bind_cons. split_and!.
  - by rewrite teardown_faults, Hf.
  - rewrite teardown_unregistered, Hu by done. by destruct p.
  - rewrite teardown_released, Hr, Hfp by done. done.
  - intros x [Hx|Hx]%elem_of_app.
    + eapply lookup_weaken_None; [|apply teardown_all_heap_sub].
      rewrite teardown_heap. by apply lookup_foldr_delete.
    + apply Hgone. by rewrite Hfp.
  - intros x Hx. rewrite Hkeep.
    + rewrite teardown_heap. apply lookup_foldr_delete_not_elem_of.
      intros Hxp. apply Hx, elem_of_app. by left.
    + rewrite Hfp. intros Hxp. apply Hx, elem_of_app. by right.
Qed.

(** The destruction of the occupant of a slot comes before the first
    store into the slot. *)
Lemma teardown_all_order ps : ∀ i h j p,
  ps !! j = Some p → truthy p = true →
  ∃ pre post,
    events (teardown_all ps i h) = pre ++ EvStore (i + j) NULL :: post
    ∧ EvDestroy p ∈ pre
    ∧ ∀ q, EvStore (i + j) q ∉ pre.
Proof.
  induction ps as [|q ps IH]; intros i h j p Hj Hp; [done|].
  cbn [teardown_all events snd].
  assert (∀ n x y, EvStore n x ∉ events (teardown y h)) as Hnostore.
  { intros n x y Hin.
    assert ((n, x) ∈ stores (events (teardown y h))) as Hs.
    { unfold stores. apply list_elem_of_omap. by exists (EvStore n x). }
    rewrite teardown_stores in Hs. by apply elem_of_nil in Hs. }
  destruct j as [|j]; cbn in Hj.
  - injection Hj as ->. destruct (teardown_head p h Hp) as [evs Hevs].
    exists (events (teardown p h)),
      (events (teardown_all ps (S i) (heap_of (teardown p h)))).
    rewrite Nat.add_0_r. split_and!; [done | | by auto].
    rewrite Hevs. apply elem_of_cons. by left.
  - destruct (IH (S i) (heap_of (teardown q h)) j p Hj Hp)
      as (pre & post & Hev & Hin & Hnot).
    exists (events (teardown q h) ++ [EvStore i NULL] ++ pre), post.
    rewrite Hev, <- !app_assoc, Nat.add_succ_r. split_and!; [done | |].
    + rewrite !elem_of_app. auto.
    + intros x. rewrite !elem_of_app. intros [Hin'|[Hin'|Hin']].
      * by apply Hnostore in Hin'.
      * apply list_elem_of_singleton in Hin'. injection Hin'. lia.
      * by apply Hnot in Hin'.
Qed.

(** ** String copies *)

Lemma strscpy_fits dest src count :
  Z.of_nat (String.length src) < count ≤ INT_MAX →
  strscpy dest src count = (src, Z.of_nat (String.length src)).
Proof.
  intros [Hlen Hmax]. unfold strscpy.
  destruct (Z.eqb_spec count 0) as [->|_]; [lia|].
  destruct (Z.ltb_spec INT_MAX count); [lia|]. cbn [orb].
  destruct (Z.ltb_spec (Z.of_nat (String.length src)) count); [done|lia].
Qed.

Lemma strscpy_truncates dest src count :
  0 ≤ count ≤ INT_MAX →
  count ≤ Z.of_nat (String.length src) →
  (strscpy "" src count).1 = substring 0 (Z.to_nat (count - 1)) src
  ∧ (strscpy dest src count).2 = - E2BIG.
Proof.
  intros [Hpos Hmax] Hlen. unfold strscpy.
  destruct (Z.eqb_spec count 0) as [->|Hne]; cbn [orb].
  { split; [|done]. cbn [fst]. by destruct src. }
  destruct (Z.ltb_spec INT_MAX count); [lia|].
  destruct (Z.ltb_spec (Z.of_nat (String.length src)) count); [lia|done].
Qed.

Lemma to_size_t_E2BIG `{platform} count :
  32 ≤ SIZE_T_BITS → count ≤ INT_MAX →
  (count <=? to_size_t (- E2BIG)) = true.
Proof.
  intros Hbits Hmax. apply Z.leb_le. unfold to_size_t, E2BIG.
  assert (2 ^ 32 ≤ 2 ^ SIZE_T_BITS) as Hpow by (apply Z.pow_le_mono_r; lia).
  change (2 ^ 32) with 4294967296 in Hpow. unfold INT_MAX in Hmax.
  rewrite <- (Z.mod_add _ 1) by lia.
  rewrite Z.mod_small; lia.
Qed.

Section Claims.
Context {P : platform} {E : env}.

(** ** The catalog *)

(** C8. The name lookup is defined for every sensor index: given that
    the four [enum sensor_idx] constants are distinct (which the C
    [switch] requires), each of them yields its own name, and every
    other value yields the label "unknown sensor type". *)
Theorem sensor_name_total :
  NoDup [ACCEL_IDX; GYRO_IDX; MAG_IDX; ALS_IDX] →
  amd_sfh_get_sensor_name ACCEL_IDX = "accelerometer"
  ∧ amd_sfh_get_sensor_name GYRO_IDX = "gyroscope"
  ∧ amd_sfh_get_sensor_name MAG_IDX = "magnetometer"
  ∧ amd_sfh_get_sensor_name ALS_IDX = "ambient light sensor"
  ∧ ∀ sensor_idx,
      sensor_idx ∉ [ACCEL_IDX; GYRO_IDX; MAG_IDX; ALS_IDX] →
      amd_sfh_get_sensor_name sensor_idx = "unknown sensor type".
Proof.
  rewrite !NoDup_cons, !elem_of_cons, !elem_of_nil.
  intros (H1 & H2 & H3 & _).
  unfold amd_sfh_get_sensor_name.
  split_and!.
  - by rewrite Z.eqb_refl.
  - destruct (Z.eqb_spec GYRO_IDX ACCEL_IDX); [intuition congruence|].
    by rewrite Z.eqb_refl.
  - destruct (Z.eqb_spec MAG_IDX ACCEL_IDX); [intuition congruence|].
    destruct (Z.eqb_spec MAG_IDX GYRO_IDX); [intuition congruence|].
    by rewrite Z.eqb_refl.
  - destruct (Z.eqb_spec ALS_IDX ACCEL_IDX); [intuition congruence|].
    destruct (Z.eqb_spec ALS_IDX GYRO_IDX); [intuition congruence|].
    destruct (Z.eqb_spec ALS_IDX MAG_IDX); [intuition congruence|].
    by rewrite Z.eqb_refl.
  - intros k. rewrite !elem_of_cons, elem_of_nil. intros Hk.
    destruct (Z.eqb_spec k ACCEL_IDX); [intuition congruence|].
    destruct (Z.eqb_spec k GYRO_IDX); [intuition congruence|].
    destruct (Z.eqb_spec k MAG_IDX); [intuition congruence|].
    destruct (Z.eqb_spec k ALS_IDX); [intuition congruence|].
    done.
Qed.

(** ** The device factory *)

(** The pointer returned by the probe, in terms of the environment. *)
Lemma amd_sfh_hid_probe_value pci_dev k h :
  value (amd_sfh_hid_probe pci_dev k h)
  = if probe_succeeds k then Ptr (addr_hid h) else NULL.
Proof. rewrite amd_sfh_hid_probe_run. apply probe_result_value. Qed.

Lemma amd_sfh_hid_probe_present pci_dev k h :
  state_of (value (amd_sfh_hid_probe pci_dev k h)) = Present
  ↔ probe_succeeds k = true.
Proof.
  rewrite amd_sfh_hid_probe_value. by destruct (probe_succeeds k).
Qed.

(** C2. Whatever step of the probe fails first, the probe returns
    [NULL], the heap is what it was before the call (nothing allocated
    by the call is still live), the allocations of the call are pairwise
    different and the releases of the call are exactly these allocations:
    an address is released once if the call allocated it and not at all
    otherwise.  No release hits memory that is not live, and nothing
    stays registered. *)
Theorem probe_failure_releases_once pci_dev k h fp :
  first_failure k = Some fp →
  value (amd_sfh_hid_probe pci_dev k h) = NULL
  ∧ heap_of (amd_sfh_hid_probe pci_dev k h) = h
  ∧ NoDup (allocated (events (amd_sfh_hid_probe pci_dev k h)))
  ∧ released (events (amd_sfh_hid_probe pci_dev k h))
    ≡ₚ allocated (events (amd_sfh_hid_probe pci_dev k h))
  ∧ (∀ a,
       count_occ Nat.eq_dec
         (released (events (amd_sfh_hid_probe pci_dev k h))) a
       = if decide (a ∈ allocated (events (amd_sfh_hid_probe pci_dev k h)))
         then 1%nat else 0%nat)
  ∧ faults (events (amd_sfh_hid_probe pci_dev k h)) = []
  ∧ registered (events (amd_sfh_hid_probe pci_dev k h)) = [].
Proof.
  intros Hfp.
  enough (value (amd_sfh_hid_probe pci_dev k h) = NULL
          ∧ heap_of (amd_sfh_hid_probe pci_dev k h) = h
          ∧ NoDup (allocated (events (amd_sfh_hid_probe pci_dev k h)))
          ∧ released (events (amd_sfh_hid_probe pci_dev k h))
            ≡ₚ allocated (events (amd_sfh_hid_probe pci_dev k h))
          ∧ faults (events (amd_sfh_hid_probe pci_dev k h)) = []
          ∧ registered (events (amd_sfh_hid_probe pci_dev k h)) = [])
    as (Hv & Hh & Hnd & Hperm & Hf & Hr).
  { split_and!; try done. by apply released_exactly_once. }
  rewrite amd_sfh_hid_probe_run. unfold probe_result.
  rewrite Hfp. cbn [value heap_of events fst snd].
  destruct (addr_fresh h) as (Ha & Hr1 & Hr2 & Har1 & Har2 & Hr12).
  split; [done|]. split; [done|].
  destruct fp; cbn [failure_events];
    destruct (name_warning_cases k) as [Hn|Hn];
    destruct phys_warning_cases as [Hp|Hp];
    rewrite ?Hn, ?Hp;
    cbn; (split_and!; [ | | done | done ]);
    try (repeat (apply NoDup_cons_2;
                   [rewrite ?elem_of_cons, elem_of_nil; intuition congruence|]);
         apply NoDup_nil_2);
    try done.
  all: try apply Permutation_rev.
  all: try (etrans; [apply Permutation_rev|]; reflexivity).
Qed.

(** C6. When the probe of [k] succeeds and the name field of the
    device is wide enough for the catalog name of [k], the device it
    returns carries that name (the label "unknown sensor type" when [k]
    is none of the four indices), and its driver data records a report
    size equal to what the descriptor provider answered for [k] and a
    buffer of exactly that many bytes, all zero. *)
Theorem probed_device_name_and_buffer pci_dev k h :
  probe_succeeds k = true →
  Z.of_nat (String.length (amd_sfh_get_sensor_name k)) < sizeof_hid_name
    ≤ INT_MAX →
  ∃ a d r1 x r2 b,
    value (amd_sfh_hid_probe pci_dev k h) = Ptr a
    ∧ heap_of (amd_sfh_hid_probe pci_dev k h) !! a = Some (Hid d)
    ∧ hid_name d = amd_sfh_get_sensor_name k
    ∧ (k ∉ [ACCEL_IDX; GYRO_IDX; MAG_IDX; ALS_IDX] →
       hid_name d = "unknown sensor type")
    ∧ hid_driver_data d = Ptr r1
    ∧ heap_of (amd_sfh_hid_probe pci_dev k h) !! r1 = Some (HidData x)
    ∧ hd_sensor_idx x = k
    ∧ hd_report_size x = get_descriptor_size k AMD_SFH_INPUT_REPORT
    ∧ hd_report_buf x = Ptr r2
    ∧ heap_of (amd_sfh_hid_probe pci_dev k h) !! r2 = Some (Bytes b)
    ∧ Z.of_nat (length b) = get_descriptor_size k AMD_SFH_INPUT_REPORT
    ∧ Forall (λ c, c = 0) b.
Proof.
  intros Hok Hfit.
  rewrite amd_sfh_hid_probe_run, probe_result_value, probe_result_heap, Hok.
  exists (addr_hid h), (probed_hid k (addr_data h) (addr_buf h)),
    (addr_data h), (probed_data pci_dev k (addr_hid h) (addr_buf h)),
    (addr_buf h),
    (zeroed_bytes (get_descriptor_size k AMD_SFH_INPUT_REPORT)).
  assert (hid_name (probed_hid k (addr_data h) (addr_buf h))
          = amd_sfh_get_sensor_name k) as Hname.
  { cbn [probed_hid hid_name]. by rewrite strscpy_fits. }
  assert (0 ≤ get_descriptor_size k AMD_SFH_INPUT_REPORT) as Hsize.
  { apply probe_succeeds_None in Hok. unfold first_failure in Hok.
    repeat case_match; try discriminate. lia. }
  split_and!; try done.
  - apply success_heap_lookup_hid.
  - intros Hk. rewrite Hname. unfold amd_sfh_get_sensor_name.
    rewrite !elem_of_cons, elem_of_nil in Hk.
    destruct (Z.eqb_spec k ACCEL_IDX); [intuition congruence|].
    destruct (Z.eqb_spec k GYRO_IDX); [intuition congruence|].
    destruct (Z.eqb_spec k MAG_IDX); [intuition congruence|].
    destruct (Z.eqb_spec k ALS_IDX); [intuition congruence|].
    done.
  - apply success_heap_lookup_data.
  - apply success_heap_lookup_buf.
  - unfold zeroed_bytes. rewrite length_replicate. lia.
  - unfold zeroed_bytes. by apply Forall_replicate.
Qed.

(** C7. Provided no step of the kernel fails, the probe returns a
    registered device however narrow the identity fields are.  If the
    catalog name does not fit the name field, the field holds the
    longest prefix that does, and the warning about the name is among
    the events; likewise for the location string.  (The field sizes
    are sizes of C arrays, hence at most [INT_MAX], and [size_t] has at
    least 32 bits.) *)
Theorem truncation_warns_and_proceeds pci_dev k h :
  probe_succeeds k = true →
  0 ≤ sizeof_hid_name ≤ INT_MAX →
  0 ≤ sizeof_hid_phys ≤ INT_MAX →
  32 ≤ SIZE_T_BITS →
  ∃ a d,
    value (amd_sfh_hid_probe pci_dev k h) = Ptr a
    ∧ heap_of (amd_sfh_hid_probe pci_dev k h) !! a = Some (Hid d)
    ∧ hid_added d = true
    ∧ (sizeof_hid_name ≤ Z.of_nat (String.length (amd_sfh_get_sensor_name k)) →
       hid_name d
       = substring 0 (Z.to_nat (sizeof_hid_name - 1))
           (amd_sfh_get_sensor_name k)
       ∧ "Could not set HID device name."
         ∈ warnings (events (amd_sfh_hid_probe pci_dev k h)))
    ∧ (sizeof_hid_phys ≤ Z.of_nat (String.length AMD_SFH_PHY_DEV) →
       hid_phys d
       = substring 0 (Z.to_nat (sizeof_hid_phys - 1)) AMD_SFH_PHY_DEV
       ∧ "Could not set HID device location."
         ∈ warnings (events (amd_sfh_hid_probe pci_dev k h))).
Proof.
  intros Hok Hname Hphys Hbits.
  rewrite amd_sfh_hid_probe_run, probe_result_value, probe_result_heap.
  unfold probe_result. apply probe_succeeds_None in Hok as Hnone.
  rewrite Hok, Hnone. cbn [events snd].
  exists (addr_hid h), (probed_hid k (addr_data h) (addr_buf h)).
  split_and!; [done | apply success_heap_lookup_hid | done | |].
  - intros Hlong.
    destruct (strscpy_truncates "" (amd_sfh_get_sensor_name k)
                sizeof_hid_name Hname Hlong) as [Hcopy Hrc].
    split; [exact Hcopy|].
    unfold success_events, name_warning.
    rewrite Hrc, to_size_t_E2BIG by lia.
    split_events. cbn. rewrite ?elem_of_app, ?elem_of_cons. intuition.
  - intros Hlong.
    destruct (strscpy_truncates "" AMD_SFH_PHY_DEV
                sizeof_hid_phys Hphys Hlong) as [Hcopy Hrc].
    split; [exact Hcopy|].
    unfold success_events, phys_warning.
    rewrite Hrc, to_size_t_E2BIG by lia.
    split_events. cbn. rewrite ?elem_of_app, ?elem_of_cons. intuition.
Qed.

End Claims.

(** ** What the four blocks of [amd_sfh_client_init] leave behind *)

Section InitFacts.
Context {P : platform} {E : env}.

Lemma probe_result_faults pci_dev k h :
  faults (events (probe_result pci_dev k h)) = [].
Proof.
  unfold probe_result, success_events.
  destruct (first_failure k) as [[]|];
    cbn [events snd failure_events];
    destruct (name_warning_cases k) as [Hn|Hn];
    destruct phys_warning_cases as [Hp|Hp];
    rewrite ?Hn, ?Hp; reflexivity.
Qed.

Lemma attempt_faults bit pci_dev k h :
  faults (events (attempt bit pci_dev k h)) = [].
Proof. unfold attempt. destruct bit; [apply probe_result_faults|done]. Qed.

Lemma attempt_all_faults mask pci_dev Ks : ∀ h,
  faults (events (attempt_all mask pci_dev Ks h)) = [].
Proof.
  induction Ks as [|K Ks IH]; intros h; [done|].
  cbn [attempt_all events snd]. split_events.
  by rewrite attempt_faults, IH.
Qed.

Lemma attempt_all_stores mask pci_dev Ks : ∀ h,
  (stores (events (attempt_all mask pci_dev Ks h))).*1 = slot_of <$> Ks.
Proof.
  assert (∀ bit k h, stores (events (attempt bit pci_dev k h)) = []) as Hnone.
  { intros bit k h. unfold attempt, probe_result, success_events.
    destruct bit; [|done].
    destruct (first_failure k) as [[]|];
      cbn [events snd failure_events];
      destruct (name_warning_cases k) as [Hn|Hn];
      destruct phys_warning_cases as [Hp|Hp];
      rewrite ?Hn, ?Hp; reflexivity. }
  induction Ks as [|K Ks IH]; intros h; [done|].
  cbn [attempt_all events snd]. split_events.
  rewrite Hnone, !fmap_app, IH. reflexivity.
Qed.

(** Every slot ends up [NULL], or with a device that did not exist
    before, has been registered on the way, is on the bus at the end
    and belongs to the sensor of the slot; which of the two it is,
    the mask and the outcome of the probe decide. *)
Lemma attempt_all_slots mask pci_dev Ks : ∀ h,
  Forall2
    (λ K p,
       if bit_set mask K && probe_succeeds (idx_of K)
       then ∃ a, p = Ptr a
                 ∧ h !! a = None
                 ∧ EvRegister a ∈ events (attempt_all mask pci_dev Ks h)
                 ∧ live_device (heap_of (attempt_all mask pci_dev Ks h)) p
                 ∧ device_sensor_idx
                     (heap_of (attempt_all mask pci_dev Ks h)) p
                   = Some (idx_of K)
       else p = NULL)
    Ks (value (attempt_all mask pci_dev Ks h)).
Proof.
  induction Ks as [|K Ks IH]; intros h; [constructor|].
  cbn [attempt_all value heap_of events fst snd].
  set (r := attempt (bit_set mask K) pci_dev (idx_of K) h).
  pose proof (attempt_all_heap_mono mask pci_dev Ks (heap_of r)) as Hsub.
  constructor.
  - subst r. rewrite attempt_value.
    rewrite attempt_heap in Hsub |- *.
    unfold attempt, probe_result, probe_succeeds in *.
    destruct (bit_set mask K); cbn [andb]; [|done].
    destruct (first_failure (idx_of K)); [done|].
    destruct (addr_fresh h) as (Ha & _).
    exists (addr_hid h). split_and!; [done | done | | |].
    + cbn [events snd]. unfold success_events.
      rewrite !elem_of_app, !elem_of_cons. auto 10.
    + eapply live_device_mono; [done | apply success_live].
    + eapply device_sensor_idx_mono; [done | apply success_sensor_idx].
  - eapply Forall2_impl; [apply IH|].
    intros J p. cbv beta.
    destruct (bit_set mask J && probe_succeeds (idx_of J)); [|done].
    intros (a & -> & Ha & Hreg & Hlive & Hidx).
    exists a. split_and!; try done.
    + eapply lookup_weaken_None; [done|]. apply attempt_heap_mono.
    + rewrite !elem_of_app. auto.
Qed.

(** The probe of every sensor whose bit is set shows in the events,
    followed by the store of its result. *)
Lemma attempt_all_attempted mask pci_dev Ks J : ∀ h,
  J ∈ Ks → bit_set mask J = true →
  ∃ hJ pre post,
    events (attempt_all mask pci_dev Ks h)
    = pre ++ events (amd_sfh_hid_probe pci_dev (idx_of J) hJ)
        ++ EvStore (slot_of J)
             (value (amd_sfh_hid_probe pci_dev (idx_of J) hJ)) :: post.
Proof.
  induction Ks as [|K Ks IH]; intros h Hin Hbit.
  { by apply elem_of_nil in Hin. }
  cbn [attempt_all events snd].
  apply elem_of_cons in Hin as [->|Hin].
  - exists h, [], (events (attempt_all mask pci_dev Ks
                      (heap_of (attempt (bit_set mask K) pci_dev (idx_of K) h)))).
    unfold attempt. rewrite Hbit, amd_sfh_hid_probe_run. reflexivity.
  - destruct (IH (heap_of (attempt (bit_set mask K) pci_dev (idx_of K) h))
                Hin Hbit) as (hJ & pre & post & Hev).
    exists hJ,
      (events (attempt (bit_set mask K) pci_dev (idx_of K) h)
         ++ [EvStore (slot_of K)
               (value (attempt (bit_set mask K) pci_dev (idx_of K) h))]
         ++ pre), post.
    rewrite Hev, <- !app_assoc. reflexivity.
Qed.

End InitFacts.

(** ** The registry after [amd_sfh_client_init] *)

Lemma all_kinds_lookup K : all_kinds !! slot_of K = Some K.
Proof. by destruct K. Qed.

Lemma slot_of_lt K : (slot_of K < AMD_SFH_MAX_SENSORS)%nat.
Proof. unfold AMD_SFH_MAX_SENSORS. destruct K; cbn; lia. Qed.

Section InitClaims.
Context {P : platform} {E : env}.

Lemma init_slot_lookup pd h K :
  length (sensors pd) = AMD_SFH_MAX_SENSORS →
  let r := amd_sfh_client_init pd h in
  let m := amd_sfh_get_sensor_mask (sfh_pci_dev pd) in
  if bit_set m K && probe_succeeds (idx_of K)
  then ∃ a, sensors_load (value r) (slot_of K) = Ptr a
            ∧ h !! a = None
            ∧ EvRegister a ∈ events r
            ∧ live_device (heap_of r) (Ptr a)
            ∧ device_sensor_idx (heap_of r) (Ptr a) = Some (idx_of K)
  else sensors_load (value r) (slot_of K) = NULL.
Proof.
  intros Hlen r m. subst r. rewrite amd_sfh_client_init_run by done.
  cbn [value heap_of events fst snd]. fold m.
  pose proof (attempt_all_slots m (sfh_pci_dev pd) all_kinds h) as Hall.
  destruct (Forall2_lookup_l _ _ _ _ _ Hall (all_kinds_lookup K))
    as (p & Hp & HK).
  unfold sensors_load. cbn [sensors]. rewrite Hp. cbn [default].
  destruct (bit_set m K && probe_succeeds (idx_of K)); [|done].
  destruct HK as (a & -> & HK). by exists a.
Qed.

(** C1. After [amd_sfh_client_init], for every mask and each of the
    four kinds: the slot of the kind is Present exactly when the bit of
    the kind is set in the mask and the probe of the kind succeeds, and
    Absent, that is [NULL], otherwise.  A Present slot points to a
    device on the heap and on the bus, created for the sensor index of
    the kind. *)
Theorem init_mask_fidelity pd h K :
  length (sensors pd) = AMD_SFH_MAX_SENSORS →
  state_of (sensors_load (value (amd_sfh_client_init pd h)) (slot_of K))
  = (if bit_set (amd_sfh_get_sensor_mask (sfh_pci_dev pd)) K
        && probe_succeeds (idx_of K)
     then Present else Absent)
  ∧ (state_of (sensors_load (value (amd_sfh_client_init pd h)) (slot_of K))
     = Present →
     live_device (heap_of (amd_sfh_client_init pd h))
       (sensors_load (value (amd_sfh_client_init pd h)) (slot_of K))
     ∧ device_sensor_idx (heap_of (amd_sfh_client_init pd h))
         (sensors_load (value (amd_sfh_client_init pd h)) (slot_of K))
       = Some (idx_of K))
  ∧ (state_of (sensors_load (value (amd_sfh_client_init pd h)) (slot_of K))
     = Absent →
     sensors_load (value (amd_sfh_client_init pd h)) (slot_of K) = NULL).
Proof.
  intros Hlen. pose proof (init_slot_lookup pd h K Hlen) as Hslot.
  cbv zeta in Hslot.
  destruct (bit_set (amd_sfh_get_sensor_mask (sfh_pci_dev pd)) K
            && probe_succeeds (idx_of K)).
  - destruct Hslot as (a & -> & _ & _ & Hlive & Hidx).
    split_and!; [done | done | done].
  - rewrite Hslot. split_and!; [done | done | done].
Qed.

Lemma attempt_all_with_mask mask' mask pci_dev Ks : ∀ h,
  @attempt_all P (with_mask E mask') mask pci_dev Ks h
  = @attempt_all P E mask pci_dev Ks h.
Proof. induction Ks as [|K Ks IH]; intros h; [done|]. cbn. by rewrite !IH. Qed.

Lemma attempt_all_same_outcome m1 m2 pci_dev Ks : ∀ h,
  (∀ K, K ∈ Ks →
     bit_set m1 K && probe_succeeds (idx_of K)
     = bit_set m2 K && probe_succeeds (idx_of K)) →
  value (attempt_all m1 pci_dev Ks h) = value (attempt_all m2 pci_dev Ks h)
  ∧ heap_of (attempt_all m1 pci_dev Ks h)
    = heap_of (attempt_all m2 pci_dev Ks h).
Proof.
  induction Ks as [|K Ks IH]; intros h Hsame; [done|].
  cbn [attempt_all value heap_of fst snd].
  rewrite !attempt_value, !attempt_heap.
  rewrite (Hsame K) by (apply elem_of_cons; by left).
  destruct (IH (if bit_set m2 K && probe_succeeds (idx_of K)
                then success_heap pci_dev (idx_of K) h else h))
    as [Hv Hh].
  { intros J HJ. apply Hsame, elem_of_cons. by right. }
  by rewrite Hv, Hh.
Qed.

(** C3. When the probe of the kind [K] fails, the registry and the heap
    after [amd_sfh_client_init] are those of the run in which the bit of
    [K] is not set and every other bit is as before: the slot of [K] is
    [NULL], every other kind whose bit is set has been probed and its
    result stored, and the call has gone through without a fault. *)
Theorem init_partial_failure_isolated pd h K fp mask' :
  length (sensors pd) = AMD_SFH_MAX_SENSORS →
  first_failure (idx_of K) = Some fp →
  bit_set mask' K = false →
  (∀ J, J ≠ K →
     bit_set mask' J = bit_set (amd_sfh_get_sensor_mask (sfh_pci_dev pd)) J) →
  value (@amd_sfh_client_init P E pd h)
  = value (@amd_sfh_client_init P (with_mask E mask') pd h)
  ∧ heap_of (@amd_sfh_client_init P E pd h)
    = heap_of (@amd_sfh_client_init P (with_mask E mask') pd h)
  ∧ sensors_load (value (@amd_sfh_client_init P E pd h)) (slot_of K) = NULL
  ∧ (∀ J, J ≠ K →
       bit_set (amd_sfh_get_sensor_mask (sfh_pci_dev pd)) J = true →
       ∃ hJ pre post,
         events (@amd_sfh_client_init P E pd h)
         = pre ++ events (amd_sfh_hid_probe (sfh_pci_dev pd) (idx_of J) hJ)
             ++ EvStore (slot_of J)
                  (value (amd_sfh_hid_probe (sfh_pci_dev pd) (idx_of J) hJ))
                :: post)
  ∧ (stores (events (@amd_sfh_client_init P E pd h))).*1 = [0; 1; 2; 3]%nat
  ∧ faults (events (@amd_sfh_client_init P E pd h)) = [].
Proof.
  intros Hlen Hfail Hoff Hsame.
  assert (probe_succeeds (idx_of K) = false) as HfailK.
  { unfold probe_succeeds. by rewrite Hfail. }
  pose proof (init_slot_lookup pd h K Hlen) as HslotK. cbv zeta in HslotK.
  rewrite HfailK, andb_false_r in HslotK.
  rewrite !amd_sfh_client_init_run by done.
  rewrite amd_sfh_client_init_run in HslotK by done.
  cbn [value heap_of events fst snd] in *.
  rewrite attempt_all_with_mask.
  change (@amd_sfh_get_sensor_mask (with_mask E mask') (sfh_pci_dev pd))
    with mask'.
  destruct (attempt_all_same_outcome
              (amd_sfh_get_sensor_mask (sfh_pci_dev pd)) mask'
              (sfh_pci_dev pd) all_kinds h) as [Hv Hh].
  { intros J _. destruct (decide (J = K)) as [->|Hne].
    - by rewrite HfailK, !andb_false_r.
    - by rewrite Hsame. }
  split_and!.
  - by rewrite Hv.
  - done.
  - done.
  - intros J _ Hbit. apply attempt_all_attempted; [|done].
    destruct J; unfold all_kinds; rewrite !elem_of_cons; auto.
  - by rewrite attempt_all_stores.
  - apply attempt_all_faults.
Qed.

End InitClaims.

(** ** The registry after [amd_sfh_client_deinit] *)

Lemma teardown_all_replicate_NULL n : ∀ i h,
  heap_of (teardown_all (replicate n NULL) i h) = h.
Proof. induction n as [|n IH]; intros i h; [done|]. cbn. apply IH. Qed.

(** C4. [amd_sfh_client_deinit] writes [NULL] into every slot, each
    slot once and in index order, whatever the slots held; it calls
    [hid_destroy_device] once for each slot that was not [NULL], in
    index order, and a device that was on the heap and in the registry
    is no longer on the heap afterwards; all slots are [NULL] on
    return.  A second call leaves the registry and the heap as the
    first call left them and calls [hid_destroy_device] not at all. *)
Theorem deinit_clears_and_is_idempotent pd h :
  length (sensors pd) = AMD_SFH_MAX_SENSORS →
  sensors (value (amd_sfh_client_deinit pd h))
  = replicate AMD_SFH_MAX_SENSORS NULL
  ∧ stores (events (amd_sfh_client_deinit pd h))
    = [(0, NULL); (1, NULL); (2, NULL); (3, NULL)]%nat
  ∧ destroy_calls (events (amd_sfh_client_deinit pd h))
    = filter (λ p, p ≠ NULL) (sensors pd)
  ∧ (∀ a d, Ptr a ∈ sensors pd → h !! a = Some (Hid d) →
       heap_of (amd_sfh_client_deinit pd h) !! a = None)
  ∧ value (amd_sfh_client_deinit (value (amd_sfh_client_deinit pd h))
             (heap_of (amd_sfh_client_deinit pd h)))
    = value (amd_sfh_client_deinit pd h)
  ∧ heap_of (amd_sfh_client_deinit (value (amd_sfh_client_deinit pd h))
               (heap_of (amd_sfh_client_deinit pd h)))
    = heap_of (amd_sfh_client_deinit pd h)
  ∧ destroy_calls
      (events (amd_sfh_client_deinit (value (amd_sfh_client_deinit pd h))
                 (heap_of (amd_sfh_client_deinit pd h))))
    = []
  ∧ stores
      (events (amd_sfh_client_deinit (value (amd_sfh_client_deinit pd h))
                 (heap_of (amd_sfh_client_deinit pd h))))
    = [(0, NULL); (1, NULL); (2, NULL); (3, NULL)]%nat.
Proof.
  intros Hlen.
  rewrite (amd_sfh_client_deinit_run pd h Hlen).
  cbn [value heap_of events fst snd].
  rewrite amd_sfh_client_deinit_run
    by (cbn [sensors]; apply length_replicate).
  cbn [value heap_of events fst snd sensors sfh_pci_dev].
  rewrite !teardown_all_stores, !teardown_all_destroy_calls, Hlen.
  rewrite teardown_all_replicate_NULL, length_replicate.
  split_and!; try done.
  intros a d Hin Ha. apply teardown_all_gone; eauto.
Qed.

(** ** Init followed by deinit *)

Section LifecycleClaims.
Context {P : platform} {E : env}.

Lemma attempt_all_length mask pci_dev Ks : ∀ h,
  length (value (attempt_all mask pci_dev Ks h)) = length Ks.
Proof.
  induction Ks as [|K Ks IH]; intros h; [done|]. cbn. by rewrite IH.
Qed.

Lemma init_registry_ok pd h :
  length (sensors pd) = AMD_SFH_MAX_SENSORS →
  length (sensors (value (amd_sfh_client_init pd h))) = AMD_SFH_MAX_SENSORS
  ∧ registry_ok (heap_of (amd_sfh_client_init pd h))
      (sensors (value (amd_sfh_client_init pd h))).
Proof.
  intros Hlen. rewrite amd_sfh_client_init_run by done.
  cbn [value heap_of fst snd sensors]. split.
  - by rewrite attempt_all_length.
  - apply (attempt_all_registry_ok _ _ _ h []), registry_ok_nil.
Qed.

Lemma deinit_registry_ok pd h :
  length (sensors pd) = AMD_SFH_MAX_SENSORS →
  length (sensors (value (amd_sfh_client_deinit pd h))) = AMD_SFH_MAX_SENSORS
  ∧ registry_ok (heap_of (amd_sfh_client_deinit pd h))
      (sensors (value (amd_sfh_client_deinit pd h))).
Proof.
  intros Hlen. rewrite amd_sfh_client_deinit_run by done.
  cbn [value heap_of fst snd sensors]. split.
  - apply length_replicate.
  - apply registry_ok_replicate_NULL.
Qed.

Lemma initialised_inv pci_dev h0 s :
  initialised (fresh_privdata pci_dev, h0) s →
  length (sensors s.1) = AMD_SFH_MAX_SENSORS ∧ registry_ok s.2 (sensors s.1).
Proof.
  induction 1 as [|s _ [IHlen _]].
  - apply init_registry_ok. apply length_replicate.
  - by apply deinit_registry_ok.
Qed.

(** C5. In a run that starts from a registry that has never been
    written, with one [amd_sfh_client_init] followed by calls of
    [amd_sfh_client_deinit], every step takes every slot along one of
    the three transitions of the state machine: from Absent to Present
    with a newly created and registered device, from Absent to Absent,
    or from Present to Absent with the occupant destroyed before the
    slot is written. *)
Theorem slot_follows_state_machine pci_dev h0 s evs s' i :
  lifecycle_step (fresh_privdata pci_dev, h0) s evs s' →
  (i < AMD_SFH_MAX_SENSORS)%nat →
  slot_transition s.2 s'.2 evs i (sensors_load s.1 i) (sensors_load s'.1 i).
Proof.
  intros Hstep Hi. destruct Hstep as [|s Hinit].
  - assert (∃ K, slot_of K = i) as [K <-].
    { unfold AMD_SFH_MAX_SENSORS in Hi.
      destruct i as [|[|[|[|i]]]]; [by exists Accelerometer
        | by exists Gyroscope | by exists Magnetometer
        | by exists AmbientLight | lia]. }
    cbn [fst snd sys_of].
    assert (sensors_load (fresh_privdata pci_dev) (slot_of K) = NULL) as ->.
    { by destruct K. }
    pose proof (init_slot_lookup (fresh_privdata pci_dev) h0 K
                  (length_replicate _ _)) as Hslot.
    cbv zeta in Hslot.
    destruct (bit_set _ K && probe_succeeds (idx_of K)).
    + destruct Hslot as (a & -> & Ha & Hreg & Hlive & _).
      by apply absent_to_present.
    + rewrite Hslot. apply absent_to_absent.
  - destruct (initialised_inv _ _ _ Hinit) as [Hlen (Hall & _)].
    destruct s as [pd h]. cbn [fst snd sys_of] in *.
    destruct (lookup_lt_is_Some_2 (sensors pd) i) as [p Hp]; [lia|].
    assert (sensors_load (value (amd_sfh_client_deinit pd h)) i = NULL) as ->.
    { rewrite amd_sfh_client_deinit_run by done.
      unfold sensors_load. cbn [value fst sensors].
      by rewrite lookup_replicate_2. }
    unfold sensors_load at 1. rewrite Hp. cbn [default].
    rewrite amd_sfh_client_deinit_run by done.
    cbn [heap_of events fst snd].
    destruct (proj1 (Forall_lookup _ _) Hall i p Hp)
      as [->|(a & d & -> & Ha & Hadd)].
    + apply absent_to_absent.
    + destruct (teardown_all_order (sensors pd) 0 h i (Ptr a) Hp eq_refl)
        as (pre & post & Hev & Hin & Hnot).
      eapply present_to_absent; [by exists a, d | exact Hev | done | done |].
      eapply teardown_all_gone; [|eauto].
      by eapply list_elem_of_lookup_2.
Qed.

(** C9. With exactly the accelerometer and the ambient light sensor in
    the mask and both probes succeeding, [amd_sfh_client_init] leaves
    devices for these two sensors in the first and the last slot and
    [NULL] in the two slots between; [amd_sfh_client_deinit] then
    calls [hid_destroy_device] twice, first for the accelerometer and
    then for the ambient light sensor, takes both devices off the bus
    in this order, and leaves all four slots [NULL]. *)
Theorem accel_and_als_scenario pd h :
  length (sensors pd) = AMD_SFH_MAX_SENSORS →
  bit_set (amd_sfh_get_sensor_mask (sfh_pci_dev pd)) Accelerometer = true →
  bit_set (amd_sfh_get_sensor_mask (sfh_pci_dev pd)) Gyroscope = false →
  bit_set (amd_sfh_get_sensor_mask (sfh_pci_dev pd)) Magnetometer = false →
  bit_set (amd_sfh_get_sensor_mask (sfh_pci_dev pd)) AmbientLight = true →
  probe_succeeds ACCEL_IDX = true →
  probe_succeeds ALS_IDX = true →
  ∃ a0 a3,
    sensors (value (amd_sfh_client_init pd h)) = [Ptr a0; NULL; NULL; Ptr a3]
    ∧ live_device (heap_of (amd_sfh_client_init pd h)) (Ptr a0)
    ∧ device_sensor_idx (heap_of (amd_sfh_client_init pd h)) (Ptr a0)
      = Some ACCEL_IDX
    ∧ live_device (heap_of (amd_sfh_client_init pd h)) (Ptr a3)
    ∧ device_sensor_idx (heap_of (amd_sfh_client_init pd h)) (Ptr a3)
      = Some ALS_IDX
    ∧ sensors (value (amd_sfh_client_deinit (value (amd_sfh_client_init pd h))
                        (heap_of (amd_sfh_client_init pd h))))
      = [NULL; NULL; NULL; NULL]
    ∧ destroy_calls
        (events (amd_sfh_client_deinit (value (amd_sfh_client_init pd h))
                   (heap_of (amd_sfh_client_init pd h))))
      = [Ptr a0; Ptr a3]
    ∧ unregistered
        (events (amd_sfh_client_deinit (value (amd_sfh_client_init pd h))
                   (heap_of (amd_sfh_client_init pd h))))
      = [a0; a3]
    ∧ faults
        (events (amd_sfh_client_deinit (value (amd_sfh_client_init pd h))
                   (heap_of (amd_sfh_client_init pd h))))
      = [].
Proof.
  intros Hlen Hacc Hgyro Hmag Hals Hok0 Hok3.
  destruct (init_registry_ok pd h Hlen) as [Hlen' Hok].
  pose proof (init_slot_lookup pd h Accelerometer Hlen) as H0.
  pose proof (init_slot_lookup pd h Gyroscope Hlen) as H1.
  pose proof (init_slot_lookup pd h Magnetometer Hlen) as H2.
  pose proof (init_slot_lookup pd h AmbientLight Hlen) as H3.
  cbv zeta in H0, H1, H2, H3. cbn [idx_of slot_of] in H0, H1, H2, H3.
  rewrite Hacc, Hok0 in H0. rewrite Hgyro in H1. rewrite Hmag in H2.
  rewrite Hals, Hok3 in H3. cbn [andb] in H0, H1, H2, H3.
  destruct H0 as (a0 & H0 & _ & _ & Hlive0 & Hidx0).
  destruct H3 as (a3 & H3 & _ & _ & Hlive3 & Hidx3).
  exists a0, a3.
  set (r := amd_sfh_client_init pd h) in *.
  assert (sensors (value r) = [Ptr a0; NULL; NULL; Ptr a3]) as Hs.
  { unfold sensors_load in H0, H1, H2, H3.
    destruct (sensors (value r)) as [|p0 [|p1 [|p2 [|p3 [|]]]]];
      try discriminate Hlen'.
    cbn in H0, H1, H2, H3. by subst. }
  rewrite amd_sfh_client_deinit_run by done.
  cbn [value heap_of events fst snd sensors].
  rewrite teardown_all_destroy_calls.
  destruct (teardown_all_ok _ 0 _ Hok) as (Hf & Hu & _).
  rewrite Hf, Hu, Hs. split_and!; done.
Qed.

(** C10. The probe returns [NULL] whenever a step fails, and never an
    error-encoded pointer.  So after [amd_sfh_client_init] every slot
    is [NULL] or points to a device that is on the heap and on the bus,
    a slot passes the test of [amd_sfh_client_deinit] exactly when it
    points to such a device, and the [hid_destroy_device] calls of
    [amd_sfh_client_deinit] all get a live device. *)
Theorem init_slots_null_or_registered pd h :
  length (sensors pd) = AMD_SFH_MAX_SENSORS →
  (∀ pci_dev k h0,
     probe_succeeds k = false →
     value (amd_sfh_hid_probe pci_dev k h0) = NULL)
  ∧ (∀ pci_dev k h0, IS_ERR (value (amd_sfh_hid_probe pci_dev k h0)) = false)
  ∧ Forall (λ p, p = NULL ∨ live_device (heap_of (amd_sfh_client_init pd h)) p)
      (sensors (value (amd_sfh_client_init pd h)))
  ∧ (∀ p, p ∈ sensors (value (amd_sfh_client_init pd h)) →
       truthy p = true ↔ live_device (heap_of (amd_sfh_client_init pd h)) p)
  ∧ faults
      (events (amd_sfh_client_deinit (value (amd_sfh_client_init pd h))
                 (heap_of (amd_sfh_client_init pd h))))
    = [].
Proof.
  intros Hlen.
  destruct (init_registry_ok pd h Hlen) as [Hlen' Hok].
  split_and!.
  - intros pci_dev k h0 Hk. by rewrite amd_sfh_hid_probe_value, Hk.
  - intros pci_dev k h0. rewrite amd_sfh_hid_probe_value.
    by destruct (probe_succeeds k).
  - apply Hok.
  - intros p Hp. destruct Hok as (Hall & _).
    destruct (proj1 (Forall_forall _ _) Hall p Hp)
      as [->|Hlive].
    + split; [done|]. by intros (a & d & ? & _).
    + split; [done|]. by destruct Hlive as (a & d & -> & _).
  - rewrite amd_sfh_client_deinit_run by done.
    cbn [events snd]. by apply teardown_all_ok.
Qed.

End LifecycleClaims.

(** * Runs on concrete inputs *)

Example strscpy_cuts :
  strscpy "" "ambient light sensor" 8 = ("ambient", -7).
Proof. reflexivity. Qed.

Example strscpy_copies :
  strscpy "" "ambient light sensor" 128 = ("ambient light sensor", 20).
Proof. reflexivity. Qed.

Example probe_with_failing_registration :
  @amd_sfh_hid_probe example_platform
    (hostile_env 1 3 0 (mk_outcomes true true true (-5))) (Ptr 99) 0 ∅
  = (NULL, ∅,
     [EvAlloc 0; EvAlloc 1; EvAlloc 2;
      EvLog KERN_ERR "Failed to add HID device: %d";
      EvDestroy (Ptr 0); EvFree 2; EvFree 1; EvFree 0]).
Proof. vm_compute. reflexivity. Qed.

Example probe_with_failing_descriptor :
  events (@amd_sfh_hid_probe example_platform (friendly_env 1 (-22))
            (Ptr 99) 0 ∅)
  = [EvAlloc 0; EvAlloc 1;
     EvLog KERN_ERR "Failed to get input descriptor size!";
     EvDestroy (Ptr 0); EvFree 1; EvFree 0].
Proof. vm_compute. reflexivity. Qed.

Example init_with_two_sensors :
  let r := @amd_sfh_client_init example_platform (friendly_env 524289 3)
             (fresh_privdata (Ptr 99)) ∅ in
  sensors (value r) = [Ptr 0; NULL; NULL; Ptr 3]
  ∧ events r
    = [EvAlloc 0; EvAlloc 1; EvAlloc 2; EvRegister 0; EvStore 0 (Ptr 0);
       EvStore 1 NULL; EvStore 2 NULL;
       EvAlloc 3; EvAlloc 4; EvAlloc 5; EvRegister 3; EvStore 3 (Ptr 3)].
Proof. vm_compute. split; reflexivity. Qed.

Example deinit_after_init_with_two_sensors :
  let r := @amd_sfh_client_init example_platform (friendly_env 524289 3)
             (fresh_privdata (Ptr 99)) ∅ in
  amd_sfh_client_deinit (value r) (heap_of r)
  = (fresh_privdata (Ptr 99), ∅,
     [EvDestroy (Ptr 0); EvUnregister 0; EvFree 2; EvFree 1; EvFree 0;
      EvStore 0 NULL; EvStore 1 NULL; EvStore 2 NULL;
      EvDestroy (Ptr 3); EvUnregister 3; EvFree 5; EvFree 4; EvFree 3;
      EvStore 3 NULL]).
Proof. vm_compute. reflexivity. Qed.

Example init_with_failing_gyroscope :
  let r := @amd_sfh_client_init example_platform
             (hostile_env 7 3 1 (mk_outcomes true true false 0))
             (fresh_privdata (Ptr 99)) ∅ in
  sensors (value r) = [Ptr 0; NULL; Ptr 3; NULL].
Proof. vm_compute. reflexivity. Qed.

(** * The statements on concrete inputs *)

Lemma sensor_name_total_witness :
  NoDup [0; 1; 2; 19]
  ∧ @amd_sfh_get_sensor_name example_platform 19 = "ambient light sensor"
  ∧ @amd_sfh_get_sensor_name example_platform 7 = "unknown sensor type".
Proof.
  assert (NoDup [0; 1; 2; 19]) as Hnd.
  { compute_done. }
  destruct (@sensor_name_total example_platform Hnd)
    as (_ & _ & _ & Hals & Hother).
  split_and!; [exact Hnd | exact Hals | apply Hother].
  compute_done.
Defined.

Lemma probe_failure_releases_once_witness :
  let E := hostile_env 1 3 0 (mk_outcomes true true true (-5)) in
  @first_failure example_platform E 0 = Some FailAddDevice
  ∧ heap_of (@amd_sfh_hid_probe example_platform E (Ptr 99) 0 ∅) = ∅
  ∧ released (events (@amd_sfh_hid_probe example_platform E (Ptr 99) 0 ∅))
    ≡ₚ allocated (events (@amd_sfh_hid_probe example_platform E (Ptr 99) 0 ∅)).
Proof.
  intros E.
  assert (@first_failure example_platform E 0 = Some FailAddDevice) as Hfp
    by reflexivity.
  destruct (@probe_failure_releases_once example_platform E (Ptr 99) 0 ∅
              FailAddDevice Hfp) as (_ & Hheap & _ & Hperm & _).
  split_and!; [exact Hfp | exact Hheap | exact Hperm].
Defined.

Lemma probed_device_name_and_buffer_witness :
  let E := friendly_env 524289 3 in
  @probe_succeeds example_platform E 19 = true
  ∧ Z.of_nat (String.length (@amd_sfh_get_sensor_name example_platform 19))
    < @sizeof_hid_name example_platform ≤ INT_MAX
  ∧ ∃ a d,
      value (@amd_sfh_hid_probe example_platform E (Ptr 99) 19 ∅) = Ptr a
      ∧ heap_of (@amd_sfh_hid_probe example_platform E (Ptr 99) 19 ∅) !! a
        = Some (Hid d)
      ∧ hid_name d = "ambient light sensor".
Proof.
  intros E.
  assert (@probe_succeeds example_platform E 19 = true) as Hok by reflexivity.
  assert (Z.of_nat (String.length (@amd_sfh_get_sensor_name example_platform 19))
          < @sizeof_hid_name example_platform ≤ INT_MAX) as Hfit
    by (vm_compute; split; [reflexivity | discriminate]).
  destruct (@probed_device_name_and_buffer example_platform E (Ptr 99) 19 ∅
              Hok Hfit) as (a & d & _ & _ & _ & _ & Hv & Hd & Hn & _).
  split_and!; [exact Hok | apply Hfit | apply Hfit | ].
  exists a, d. split_and!; [exact Hv | exact Hd | exact Hn].
Defined.

Lemma truncation_warns_and_proceeds_witness :
  let E := friendly_env 524289 3 in
  @probe_succeeds narrow_platform E 19 = true
  ∧ 0 ≤ @sizeof_hid_name narrow_platform ≤ INT_MAX
  ∧ 0 ≤ @sizeof_hid_phys narrow_platform ≤ INT_MAX
  ∧ 32 ≤ @SIZE_T_BITS narrow_platform
  ∧ ∃ a d,
      value (@amd_sfh_hid_probe narrow_platform E (Ptr 99) 19 ∅) = Ptr a
      ∧ heap_of (@amd_sfh_hid_probe narrow_platform E (Ptr 99) 19 ∅) !! a
        = Some (Hid d)
      ∧ hid_added d = true
      ∧ hid_name d = "ambient"
      ∧ hid_phys d = "AMD Sensor Fusi"
      ∧ "Could not set HID device name."
        ∈ warnings (events (@amd_sfh_hid_probe narrow_platform E (Ptr 99) 19 ∅))
      ∧ "Could not set HID device location."
        ∈ warnings (events (@amd_sfh_hid_probe narrow_platform E (Ptr 99) 19 ∅)).
Proof.
  intros E.
  assert (@probe_succeeds narrow_platform E 19 = true) as Hok by reflexivity.
  assert (0 ≤ @sizeof_hid_name narrow_platform ≤ INT_MAX) as Hn
    by (vm_compute; split; discriminate).
  assert (0 ≤ @sizeof_hid_phys narrow_platform ≤ INT_MAX) as Hp
    by (vm_compute; split; discriminate).
  assert (32 ≤ @SIZE_T_BITS narrow_platform) as Hb
    by (vm_compute; discriminate).
  destruct (@truncation_warns_and_proceeds narrow_platform E (Ptr 99) 19 ∅
              Hok Hn Hp Hb) as (a & d & Hv & Hd & Hadd & Hname & Hphys).
  destruct Hname as [Hname Hwn]; [vm_compute; discriminate|].
  destruct Hphys as [Hphys Hwp]; [vm_compute; discriminate|].
  split_and!; [exact Hok | apply Hn | apply Hn | apply Hp | apply Hp
              | exact Hb | ].
  exists a, d.
  split_and!; [exact Hv | exact Hd | exact Hadd | exact Hname | exact Hphys
              | exact Hwn | exact Hwp].
Defined.

Lemma init_mask_fidelity_witness :
  let E := friendly_env 524289 3 in
  length (sensors (fresh_privdata (Ptr 99))) = AMD_SFH_MAX_SENSORS
  ∧ state_of (sensors_load
                (value (@amd_sfh_client_init example_platform E
                          (fresh_privdata (Ptr 99)) ∅))
                (slot_of AmbientLight))
    = Present
  ∧ state_of (sensors_load
                (value (@amd_sfh_client_init example_platform E
                          (fresh_privdata (Ptr 99)) ∅))
                (slot_of Gyroscope))
    = Absent.
Proof.
  intros E.
  assert (length (sensors (fresh_privdata (Ptr 99))) = AMD_SFH_MAX_SENSORS)
    as Hlen by reflexivity.
  split_and!; [exact Hlen | |].
  - exact (proj1 (@init_mask_fidelity example_platform E
                    (fresh_privdata (Ptr 99)) ∅ AmbientLight Hlen)).
  - exact (proj1 (@init_mask_fidelity example_platform E
                    (fresh_privdata (Ptr 99)) ∅ Gyroscope Hlen)).
Defined.

Lemma init_partial_failure_isolated_witness :
  let E := hostile_env 7 3 1 (mk_outcomes false true true 0) in
  length (sensors (fresh_privdata (Ptr 99))) = AMD_SFH_MAX_SENSORS
  ∧ @first_failure example_platform E (@idx_of example_platform Gyroscope)
    = Some FailHidAlloc
  ∧ @bit_set example_platform 5 Gyroscope = false
  ∧ (∀ J, J ≠ Gyroscope →
       @bit_set example_platform 5 J = @bit_set example_platform 7 J)
  ∧ value (@amd_sfh_client_init example_platform E
             (fresh_privdata (Ptr 99)) ∅)
    = value (@amd_sfh_client_init example_platform (with_mask E 5)
               (fresh_privdata (Ptr 99)) ∅)
  ∧ heap_of (@amd_sfh_client_init example_platform E
               (fresh_privdata (Ptr 99)) ∅)
    = heap_of (@amd_sfh_client_init example_platform (with_mask E 5)
                 (fresh_privdata (Ptr 99)) ∅).
Proof.
  intros E.
  assert (length (sensors (fresh_privdata (Ptr 99))) = AMD_SFH_MAX_SENSORS)
    as Hlen by reflexivity.
  assert (@first_failure example_platform E (@idx_of example_platform Gyroscope)
          = Some FailHidAlloc) as Hfp by reflexivity.
  assert (@bit_set example_platform 5 Gyroscope = false) as Hoff
    by reflexivity.
  assert (∀ J, J ≠ Gyroscope →
            @bit_set example_platform 5 J = @bit_set example_platform 7 J)
    as Hsame by (intros [] HJ; first [reflexivity | by destruct HJ]).
  destruct (@init_partial_failure_isolated example_platform E
              (fresh_privdata (Ptr 99)) ∅ Gyroscope FailHidAlloc 5
              Hlen Hfp Hoff Hsame) as (Hv & Hh & _).
  split_and!; [exact Hlen | exact Hfp | exact Hoff | exact Hsame
              | exact Hv | exact Hh].
Defined.

Lemma deinit_clears_and_is_idempotent_witness :
  let E := friendly_env 524289 3 in
  let r := @amd_sfh_client_init example_platform E (fresh_privdata (Ptr 99)) ∅ in
  length (sensors (value r)) = AMD_SFH_MAX_SENSORS
  ∧ sensors (value (amd_sfh_client_deinit (value r) (heap_of r)))
    = replicate AMD_SFH_MAX_SENSORS NULL
  ∧ destroy_calls (events (amd_sfh_client_deinit (value r) (heap_of r)))
    = filter (λ p, p ≠ NULL) (sensors (value r))
  ∧ destroy_calls
      (events (amd_sfh_client_deinit
                 (value (amd_sfh_client_deinit (value r) (heap_of r)))
                 (heap_of (amd_sfh_client_deinit (value r) (heap_of r)))))
    = [].
Proof.
  intros E r.
  assert (length (sensors (value r)) = AMD_SFH_MAX_SENSORS) as Hlen
    by (vm_compute; reflexivity).
  destruct (deinit_clears_and_is_idempotent (value r) (heap_of r) Hlen)
    as (Hs & _ & Hd & _ & _ & _ & Hd2 & _).
  split_and!; [exact Hlen | exact Hs | exact Hd | exact Hd2].
Defined.

Lemma slot_follows_state_machine_witness :
  let E := friendly_env 524289 3 in
  let s0 : sys := (fresh_privdata (Ptr 99), ∅) in
  let r := @amd_sfh_client_init example_platform E s0.1 s0.2 in
  @lifecycle_step example_platform E s0 s0 (events r) (sys_of r)
  ∧ (0 < AMD_SFH_MAX_SENSORS)%nat
  ∧ slot_transition s0.2 (sys_of r).2 (events r) 0
      (sensors_load s0.1 0) (sensors_load (sys_of r).1 0).
Proof.
  intros E s0 r.
  assert (@lifecycle_step example_platform E s0 s0 (events r) (sys_of r))
    as Hstep by apply step_init.
  assert (0 < AMD_SFH_MAX_SENSORS)%nat as Hi by (vm_compute; lia).
  split_and!; [exact Hstep | exact Hi | ].
  exact (@slot_follows_state_machine example_platform E (Ptr 99) ∅
           s0 (events r) (sys_of r) 0%nat Hstep Hi).
Defined.

Lemma accel_and_als_scenario_witness :
  let E := friendly_env 524289 3 in
  let pd := fresh_privdata (Ptr 99) in
  length (sensors pd) = AMD_SFH_MAX_SENSORS
  ∧ @bit_set example_platform 524289 Accelerometer = true
  ∧ @bit_set example_platform 524289 Gyroscope = false
  ∧ @bit_set example_platform 524289 Magnetometer = false
  ∧ @bit_set example_platform 524289 AmbientLight = true
  ∧ @probe_succeeds example_platform E 0 = true
  ∧ @probe_succeeds example_platform E 19 = true
  ∧ ∃ a0 a3,
      sensors (value (@amd_sfh_client_init example_platform E pd ∅))
      = [Ptr a0; NULL; NULL; Ptr a3]
      ∧ destroy_calls
          (events (amd_sfh_client_deinit
                     (value (@amd_sfh_client_init example_platform E pd ∅))
                     (heap_of (@amd_sfh_client_init example_platform E pd ∅))))
        = [Ptr a0; Ptr a3]
      ∧ unregistered
          (events (amd_sfh_client_deinit
                     (value (@amd_sfh_client_init example_platform E pd ∅))
                     (heap_of (@amd_sfh_client_init example_platform E pd ∅))))
        = [a0; a3].
Proof.
  intros E pd.
  destruct (@accel_and_als_scenario example_platform E pd ∅
              eq_refl eq_refl eq_refl eq_refl eq_refl eq_refl eq_refl)
    as (a0 & a3 & Hs & _ & _ & _ & _ & _ & Hd & Hu & _).
  split_and!; try reflexivity.
  exists a0, a3. split_and!; [exact Hs | exact Hd | exact Hu].
Defined.

Lemma init_slots_null_or_registered_witness :
  let E := hostile_env 7 3 1 (mk_outcomes false true true 0) in
  let pd := fresh_privdata (Ptr 99) in
  length (sensors pd) = AMD_SFH_MAX_SENSORS
  ∧ value (@amd_sfh_hid_probe example_platform E (Ptr 99) 1 ∅) = NULL
  ∧ faults
      (events (amd_sfh_client_deinit
                 (value (@amd_sfh_client_init example_platform E pd ∅))
                 (heap_of (@amd_sfh_client_init example_platform E pd ∅))))
    = [].
Proof.
  intros E pd.
  assert (length (sensors pd) = AMD_SFH_MAX_SENSORS) as Hlen by reflexivity.
  destruct (@init_slots_null_or_registered example_platform E pd ∅ Hlen)
    as (Hnull & _ & _ & _ & Hf).
  split_and!; [exact Hlen | apply Hnull; reflexivity | exact Hf].
Defined.

(** * Further properties of the probe *)

Lemma errors_app e1 e2 : errors (e1 ++ e2) = errors e1 ++ errors e2.
Proof. apply omap_app. Qed.

Section ProbeMore.
Context {P : platform} {E : env}.

Lemma first_failure_hid_alloc k :
  hid_alloc_ok (kernel_outcomes k) = false
  ↔ first_failure k = Some FailHidAlloc.
Proof.
  unfold first_failure.
  destruct (hid_alloc_ok (kernel_outcomes k)); cbn [negb]; [|done].
  split; [done|]. repeat case_match; discriminate.
Qed.

Lemma success_heap_lookup_other pci_dev k h x :
  x ∉ [addr_hid h; addr_buf h; addr_data h] →
  success_heap pci_dev k h !! x = h !! x.
Proof.
  rewrite !elem_of_cons, elem_of_nil. intros Hx. unfold success_heap.
  rewrite !lookup_insert_ne; [done | intuition congruence..].
Qed.

(** X1. The device a successful probe returns carries the fixed
    identity (bus, group, vendor, product, version, type, low-level
    driver), is on the bus, and owns exactly its two managed
    allocations; its driver data records the sensor index, the PCI
    device it was probed for, a pointer back to the device itself, no
    DMA address yet, and the report buffer; the device points to that
    driver data.  The three allocations are different objects. *)
Theorem probed_device_identity pci_dev k h :
  probe_succeeds k = true →
  ∃ a r1 r2 d x,
    value (amd_sfh_hid_probe pci_dev k h) = Ptr a
    ∧ heap_of (amd_sfh_hid_probe pci_dev k h) !! a = Some (Hid d)
    ∧ heap_of (amd_sfh_hid_probe pci_dev k h) !! r1 = Some (HidData x)
    ∧ a ≠ r1 ∧ a ≠ r2 ∧ r1 ≠ r2
    ∧ hid_bus d = BUS_I2C
    ∧ hid_group d = HID_GROUP_SENSOR_HUB
    ∧ hid_vendor d = AMD_SFH_HID_VENDOR
    ∧ hid_product d = AMD_SFH_HID_PRODUCT
    ∧ hid_version d = AMD_SFH_HID_VERSION
    ∧ hid_type d = HID_TYPE_OTHER
    ∧ hid_ll_driver d = amd_sfh_hid_ll_driver
    ∧ hid_driver_data d = Ptr r1
    ∧ hid_devres d = [r2; r1]
    ∧ hid_added d = true
    ∧ hd_sensor_idx x = k
    ∧ hd_pci_dev x = pci_dev
    ∧ hd_hid x = Ptr a
    ∧ hd_cpu_addr x = NULL
    ∧ hd_report_buf x = Ptr r2.
Proof.
  intros Hok.
  rewrite amd_sfh_hid_probe_run, probe_result_value, probe_result_heap, Hok.
  destruct (addr_fresh h) as (_ & _ & _ & Har1 & Har2 & Hr12).
  exists (addr_hid h), (addr_data h), (addr_buf h),
    (probed_hid k (addr_data h) (addr_buf h)),
    (probed_data pci_dev k (addr_hid h) (addr_buf h)).
  split_and!; try done.
  - apply success_heap_lookup_hid.
  - apply success_heap_lookup_data.
Qed.

(** X2. The error-level messages of a probe: none when it succeeds,
    and when it fails exactly one, naming the step that failed; except
    that a failed allocation of the driver data is passed over in
    silence. *)
Theorem probe_error_messages pci_dev k h :
  errors (events (amd_sfh_hid_probe pci_dev k h))
  = match first_failure k with
    | None => []
    | Some FailHidAlloc => ["Failed to allocate HID device!"]
    | Some FailDataAlloc => []
    | Some FailDescriptorSize => ["Failed to get input descriptor size!"]
    | Some FailBufAlloc => ["Failed to allocate memory for report buffer!"]
    | Some FailAddDevice => ["Failed to add HID device: %d"]
    end.
Proof.
  rewrite amd_sfh_hid_probe_run. unfold probe_result, success_events.
  destruct (first_failure k) as [[]|];
    cbn [events snd failure_events];
    destruct (name_warning_cases k) as [Hn|Hn];
    destruct phys_warning_cases as [Hp|Hp];
    rewrite ?Hn, ?Hp; reflexivity.
Qed.

Lemma name_warning_exact k :
  0 ≤ sizeof_hid_name ≤ INT_MAX → 32 ≤ SIZE_T_BITS →
  name_warning k
  = if sizeof_hid_name
         <=? Z.of_nat (String.length (amd_sfh_get_sensor_name k))
    then [EvLog KERN_WARNING "Could not set HID device name."] else [].
Proof.
  intros Hsize Hbits. unfold name_warning.
  destruct (Z.leb_spec sizeof_hid_name
              (Z.of_nat (String.length (amd_sfh_get_sensor_name k))))
    as [Hlong|Hfit].
  - destruct (strscpy_truncates "" (amd_sfh_get_sensor_name k)
                sizeof_hid_name Hsize Hlong) as [_ ->].
    by rewrite to_size_t_E2BIG by lia.
  - rewrite strscpy_fits by lia. cbn [snd].
    destruct (Z.leb_spec sizeof_hid_name
                (to_size_t (Z.of_nat (String.length (amd_sfh_get_sensor_name k)))))
      as [Hle|]; [|done].
    unfold to_size_t in Hle.
    assert (0 < 2 ^ SIZE_T_BITS) by (apply Z.pow_pos_nonneg; lia).
    pose proof (Z.mod_le (Z.of_nat (String.length (amd_sfh_get_sensor_name k)))
                  (2 ^ SIZE_T_BITS)). lia.
Qed.

Lemma phys_warning_exact :
  0 ≤ sizeof_hid_phys ≤ INT_MAX → 32 ≤ SIZE_T_BITS →
  phys_warning
  = if sizeof_hid_phys <=? Z.of_nat (String.length AMD_SFH_PHY_DEV)
    then [EvLog KERN_WARNING "Could not set HID device location."] else [].
Proof.
  intros Hsize Hbits. unfold phys_warning.
  destruct (Z.leb_spec sizeof_hid_phys
              (Z.of_nat (String.length AMD_SFH_PHY_DEV))) as [Hlong|Hfit].
  - destruct (strscpy_truncates "" AMD_SFH_PHY_DEV
                sizeof_hid_phys Hsize Hlong) as [_ ->].
    by rewrite to_size_t_E2BIG by lia.
  - rewrite strscpy_fits by lia. cbn [snd].
    destruct (Z.leb_spec sizeof_hid_phys
                (to_size_t (Z.of_nat (String.length AMD_SFH_PHY_DEV))))
      as [Hle|]; [|done].
    unfold to_size_t in Hle.
    assert (0 < 2 ^ SIZE_T_BITS) by (apply Z.pow_pos_nonneg; lia).
    pose proof (Z.mod_le (Z.of_nat (String.length AMD_SFH_PHY_DEV))
                  (2 ^ SIZE_T_BITS)). lia.
Qed.

(** X3. The warnings of a probe are decided by the sizes alone: once
    the device has been allocated, the warning about the name is there
    exactly when the catalog name does not fit the name field, and the
    warning about the location exactly when the location string does
    not fit its field, in this order and whether or not the probe goes
    on to succeed; a probe that cannot allocate the device warns about
    nothing. *)
Theorem probe_warnings_exact pci_dev k h :
  0 ≤ sizeof_hid_name ≤ INT_MAX →
  0 ≤ sizeof_hid_phys ≤ INT_MAX →
  32 ≤ SIZE_T_BITS →
  warnings (events (amd_sfh_hid_probe pci_dev k h))
  = if hid_alloc_ok (kernel_outcomes k)
    then (if sizeof_hid_name
               <=? Z.of_nat (String.length (amd_sfh_get_sensor_name k))
          then ["Could not set HID device name."] else [])
         ++ (if sizeof_hid_phys
                  <=? Z.of_nat (String.length AMD_SFH_PHY_DEV)
             then ["Could not set HID device location."] else [])
    else [].
Proof.
  intros Hname Hphys Hbits.
  rewrite amd_sfh_hid_probe_run. unfold probe_result, success_events.
  pose proof (first_failure_hid_alloc k) as Halloc.
  destruct (first_failure k) as [[]|] eqn:Hfp;
    destruct (hid_alloc_ok (kernel_outcomes k));
    try discriminate (proj1 Halloc eq_refl);
    try discriminate (proj2 Halloc eq_refl);
    cbn [events snd failure_events];
    rewrite ?name_warning_exact, ?phys_warning_exact by done;
    try reflexivity;
    split_events;
    do 2 case_match; reflexivity.
Qed.

End ProbeMore.

(** ** The catalog, read backwards *)

Section CatalogMore.
Context {P : platform}.

Lemma sensor_name_cases k :
  amd_sfh_get_sensor_name k = "accelerometer"
  ∨ amd_sfh_get_sensor_name k = "gyroscope"
  ∨ amd_sfh_get_sensor_name k = "magnetometer"
  ∨ amd_sfh_get_sensor_name k = "ambient light sensor"
  ∨ amd_sfh_get_sensor_name k = "unknown sensor type".
Proof. unfold amd_sfh_get_sensor_name. repeat case_match; auto 10. Qed.

Lemma sensor_name_length k :
  (9 ≤ String.length (amd_sfh_get_sensor_name k) ≤ 20)%nat.
Proof.
  destruct (sensor_name_cases k) as [->|[->|[->|[->| ->]]]]; cbn; lia.
Qed.

(** X4. Given distinct index constants, the name tells the sensor: a
    known index never gets the fallback label, an unknown index always
    does, and two indices with the same name are equal as soon as one
    of them is known. *)
Theorem sensor_name_determines_index :
  NoDup [ACCEL_IDX; GYRO_IDX; MAG_IDX; ALS_IDX] →
  (∀ k, amd_sfh_get_sensor_name k = "unknown sensor type"
        ↔ k ∉ [ACCEL_IDX; GYRO_IDX; MAG_IDX; ALS_IDX])
  ∧ (∀ k1 k2, k1 ∈ [ACCEL_IDX; GYRO_IDX; MAG_IDX; ALS_IDX] →
              amd_sfh_get_sensor_name k1 = amd_sfh_get_sensor_name k2 →
              k1 = k2).
Proof.
  rewrite !NoDup_cons, !elem_of_cons, !elem_of_nil.
  intros (H1 & H2 & H3 & _).
  unfold amd_sfh_get_sensor_name. split.
  - intros k. rewrite !elem_of_cons, elem_of_nil.
    destruct (Z.eqb_spec k ACCEL_IDX); [split; [done|tauto]|].
    destruct (Z.eqb_spec k GYRO_IDX); [split; [done|tauto]|].
    destruct (Z.eqb_spec k MAG_IDX); [split; [done|tauto]|].
    destruct (Z.eqb_spec k ALS_IDX); [split; [done|tauto]|].
    split; [tauto|done].
  - intros k1 k2. rewrite !elem_of_cons, elem_of_nil.
    intros Hk1.
    destruct (Z.eqb_spec k1 ACCEL_IDX), (Z.eqb_spec k2 ACCEL_IDX);
      try congruence; try discriminate;
    destruct (Z.eqb_spec k1 GYRO_IDX), (Z.eqb_spec k2 GYRO_IDX);
      try congruence; try discriminate;
    destruct (Z.eqb_spec k1 MAG_IDX), (Z.eqb_spec k2 MAG_IDX);
      try congruence; try discriminate;
    destruct (Z.eqb_spec k1 ALS_IDX), (Z.eqb_spec k2 ALS_IDX);
      try congruence; try discriminate.
    tauto.
Qed.

End CatalogMore.

Section ProbeAccounting.
Context {P : platform} {E : env}.

(** X5. With a name field of more than 20 bytes and a location field
    of more than 28, as every sensor name has at most 20 characters and
    the location string 28, no probe of any sensor index ever warns,
    and a successful probe leaves the whole name and the whole location
    string in the device. *)
Theorem wide_fields_never_truncate pci_dev k h :
  20 < sizeof_hid_name ≤ INT_MAX →
  28 < sizeof_hid_phys ≤ INT_MAX →
  32 ≤ SIZE_T_BITS →
  warnings (events (amd_sfh_hid_probe pci_dev k h)) = []
  ∧ (probe_succeeds k = true →
     ∃ a d,
       value (amd_sfh_hid_probe pci_dev k h) = Ptr a
       ∧ heap_of (amd_sfh_hid_probe pci_dev k h) !! a = Some (Hid d)
       ∧ hid_name d = amd_sfh_get_sensor_name k
       ∧ hid_phys d = AMD_SFH_PHY_DEV).
Proof.
  intros Hname Hphys Hbits.
  pose proof (sensor_name_length k) as Hlen.
  assert (name_warning k = []) as Hn.
  { rewrite name_warning_exact by lia.
    destruct (Z.leb_spec sizeof_hid_name
                (Z.of_nat (String.length (amd_sfh_get_sensor_name k))));
      [lia|done]. }
  assert (phys_warning = []) as Hp.
  { rewrite phys_warning_exact by lia.
    destruct (Z.leb_spec sizeof_hid_phys
                (Z.of_nat (String.length AMD_SFH_PHY_DEV))) as [Hle|];
      [|done].
    cbn in Hle. lia. }
  rewrite amd_sfh_hid_probe_run. split.
  - unfold probe_result, success_events.
    destruct (first_failure k) as [[]|];
      cbn [events snd failure_events]; rewrite ?Hn, ?Hp; reflexivity.
  - intros Hok. rewrite probe_result_value, probe_result_heap, Hok.
    exists (addr_hid h), (probed_hid k (addr_data h) (addr_buf h)).
    split_and!; [done | apply success_heap_lookup_hid | |].
    + cbn [probed_hid hid_name]. rewrite strscpy_fits; [done|lia].
    + cbn [probed_hid hid_phys]. rewrite strscpy_fits; [done|].
      cbn. lia.
Qed.

Lemma probe_result_frame pci_dev k h x :
  is_Some (h !! x) → heap_of (probe_result pci_dev k h) !! x = h !! x.
Proof.
  intros Hx. rewrite probe_result_heap.
  destruct (probe_succeeds k); [|done]. by apply success_heap_lookup_old.
Qed.

(** X6. A probe, whether it succeeds or fails, leaves every object
    that was on the heap before exactly as it was, and the device it
    returns, if any, is at an address that was not in use. *)
Theorem probe_touches_nothing_else pci_dev k h :
  (∀ x, is_Some (h !! x) →
        heap_of (amd_sfh_hid_probe pci_dev k h) !! x = h !! x)
  ∧ (∀ a, value (amd_sfh_hid_probe pci_dev k h) = Ptr a → h !! a = None).
Proof.
  rewrite amd_sfh_hid_probe_run. split.
  - intros x. apply probe_result_frame.
  - intros a. rewrite probe_result_value.
    destruct (probe_succeeds k); [|done].
    intros [= <-]. apply addr_fresh.
Qed.

Lemma probe_result_balance pci_dev k h :
  allocated (events (probe_result pci_dev k h))
  ≡ₚ released (events (probe_result pci_dev k h))
     ++ footprint (heap_of (probe_result pci_dev k h))
          (value (probe_result pci_dev k h)).
Proof.
  unfold probe_result.
  destruct (first_failure k) as [fp|];
    cbn [value heap_of events fst snd].
  - cbn [footprint]. rewrite app_nil_r.
    destruct fp; cbn [failure_events];
      destruct (name_warning_cases k) as [Hn|Hn];
      destruct phys_warning_cases as [Hp|Hp];
      rewrite ?Hn, ?Hp; cbn; try done;
      try apply Permutation_rev;
      (etrans; [apply Permutation_rev|]; reflexivity).
  - rewrite success_footprint. unfold success_events.
    destruct (name_warning_cases k) as [Hn|Hn];
      destruct phys_warning_cases as [Hp|Hp];
      rewrite ?Hn, ?Hp; cbn;
      apply perm_skip, perm_swap.
Qed.

Lemma probe_result_registered pci_dev k h :
  registered (events (probe_result pci_dev k h))
  = addrs_of [value (probe_result pci_dev k h)].
Proof.
  unfold probe_result, success_events.
  destruct (first_failure k) as [[]|];
    cbn [value events fst snd failure_events];
    destruct (name_warning_cases k) as [Hn|Hn];
    destruct phys_warning_cases as [Hp|Hp];
    rewrite ?Hn, ?Hp; reflexivity.
Qed.

(** X7. On every path of the probe the books balance: an allocation
    made by the call has either been released by the call or belongs
    to the device the call returns, and nothing else is released; the
    call registers the device it returns and no other. *)
Theorem probe_allocations_accounted pci_dev k h :
  allocated (events (amd_sfh_hid_probe pci_dev k h))
  ≡ₚ released (events (amd_sfh_hid_probe pci_dev k h))
     ++ footprint (heap_of (amd_sfh_hid_probe pci_dev k h))
          (value (amd_sfh_hid_probe pci_dev k h))
  ∧ registered (events (amd_sfh_hid_probe pci_dev k h))
    = addrs_of [value (amd_sfh_hid_probe pci_dev k h)].
Proof.
  rewrite amd_sfh_hid_probe_run.
  split; [apply probe_result_balance | apply probe_result_registered].
Qed.

(** X8. Creation and destruction cancel: [hid_destroy_device] on the
    device a successful probe returns takes the device off the bus,
    releases exactly what the probe allocated, and leaves the heap as
    it was before the probe. *)
Theorem probe_then_destroy_restores pci_dev k h :
  probe_succeeds k = true →
  heap_of (hid_destroy_device (value (amd_sfh_hid_probe pci_dev k h))
             (heap_of (amd_sfh_hid_probe pci_dev k h)))
  = h
  ∧ released
      (events (hid_destroy_device (value (amd_sfh_hid_probe pci_dev k h))
                 (heap_of (amd_sfh_hid_probe pci_dev k h))))
    ≡ₚ allocated (events (amd_sfh_hid_probe pci_dev k h))
  ∧ unregistered
      (events (hid_destroy_device (value (amd_sfh_hid_probe pci_dev k h))
                 (heap_of (amd_sfh_hid_probe pci_dev k h))))
    = registered (events (amd_sfh_hid_probe pci_dev k h))
  ∧ faults
      (events (hid_destroy_device (value (amd_sfh_hid_probe pci_dev k h))
                 (heap_of (amd_sfh_hid_probe pci_dev k h))))
    = [].
Proof.
  intros Hok. apply probe_succeeds_None in Hok as Hnone.
  rewrite amd_sfh_hid_probe_run, probe_result_value, probe_result_heap, Hok.
  unfold probe_result. rewrite Hnone. cbn [events snd].
  rewrite (hid_destroy_device_live _ _ _ (success_heap_lookup_hid pci_dev k h)).
  cbn [heap_of events fst snd probed_hid hid_devres hid_added foldr].
  destruct (addr_fresh h) as (Ha & Hr1 & Hr2 & Har1 & Har2 & Hr12).
  split_and!.
  - unfold success_heap. by heap_restore.
  - unfold success_events.
    destruct (name_warning_cases k) as [Hn|Hn];
      destruct phys_warning_cases as [Hp|Hp];
      rewrite ?Hn, ?Hp; cbn; apply Permutation_rev.
  - unfold success_events.
    destruct (name_warning_cases k) as [Hn|Hn];
      destruct phys_warning_cases as [Hp|Hp];
      rewrite ?Hn, ?Hp; reflexivity.
  - reflexivity.
Qed.

End ProbeAccounting.

(** * Further properties of init and deinit *)

Lemma allocated_store i p : allocated [EvStore i p] = [].
Proof. reflexivity. Qed.
Lemma released_store i p : released [EvStore i p] = [].
Proof. reflexivity. Qed.
Lemma registered_store i p : registered [EvStore i p] = [].
Proof. reflexivity. Qed.

Lemma elem_of_addrs_of a ps : a ∈ addrs_of ps ↔ Ptr a ∈ ps.
Proof.
  unfold addrs_of. rewrite list_elem_of_omap. split.
  - intros ([|b|e] & Hin & Heq); try discriminate. by injection Heq as ->.
  - intros Hin. by exists (Ptr a).
Qed.

Lemma registry_ok_tail h p ps : registry_ok h (p :: ps) → registry_ok h ps.
Proof.
  unfold registry_ok. rewrite bind_cons. intros (Hall & Hnd & Hdom).
  apply Forall_cons in Hall as [_ Hall].
  apply NoDup_app in Hnd as (_ & _ & Hnd).
  split_and!; [done | done |].
  intros x Hx. apply Hdom, elem_of_app. by right.
Qed.

Lemma registry_ok_NoDup_addrs h ps : registry_ok h ps → NoDup (addrs_of ps).
Proof.
  induction ps as [|p ps IH]; intros Hok; [constructor|].
  pose proof (IH (registry_ok_tail _ _ _ Hok)) as Hnd.
  destruct Hok as (Hall & Hfp & _).
  apply Forall_cons in Hall as [Hp Hall].
  destruct Hp as [->|(a & d & -> & Ha & _)]; [done|].
  cbn. apply NoDup_cons_2; [|done].
  intros Hin%elem_of_addrs_of.
  rewrite bind_cons in Hfp. apply NoDup_app in Hfp as (_ & Hdisj & _).
  apply (Hdisj a).
  - cbn [footprint]. rewrite Ha. apply elem_of_cons. by left.
  - apply list_elem_of_bind. exists (Ptr a). split; [|done].
    cbn [footprint]. rewrite Ha. apply elem_of_cons. by left.
Qed.

Lemma teardown_allocated p h : allocated (events (teardown p h)) = [].
Proof.
  unfold teardown.
  destruct p as [|a|e]; cbn [truthy]; try done.
  destruct (h !! a) as [[d| |]|] eqn:Ha;
    [rewrite (hid_destroy_device_live _ _ _ Ha)
    |unfold hid_destroy_device; by rewrite Ha..].
  cbn [events snd]. split_events.
  assert (allocated (EvFree <$> hid_devres d) = []) as ->
    by (by induction (hid_devres d)).
  by destruct (hid_added d).
Qed.

Lemma teardown_registered p h : registered (events (teardown p h)) = [].
Proof.
  unfold teardown.
  destruct p as [|a|e]; cbn [truthy]; try done.
  destruct (h !! a) as [[d| |]|] eqn:Ha;
    [rewrite (hid_destroy_device_live _ _ _ Ha)
    |unfold hid_destroy_device; by rewrite Ha..].
  cbn [events snd]. split_events.
  assert (registered (EvFree <$> hid_devres d) = []) as ->
    by (by induction (hid_devres d)).
  by destruct (hid_added d).
Qed.

Lemma teardown_all_allocated ps : ∀ i h,
  allocated (events (teardown_all ps i h)) = []
  ∧ registered (events (teardown_all ps i h)) = [].
Proof.
  induction ps as [|p ps IH]; intros i h; [done|].
  cbn [teardown_all events snd]. split_events.
  rewrite teardown_allocated, teardown_registered.
  destruct (IH (S i) (heap_of (teardown p h))) as [-> ->]. done.
Qed.

Section InitMore.
Context {P : platform} {E : env}.

Lemma attempt_device_ok bit pci_dev k h :
  device_ok (heap_of (attempt bit pci_dev k h))
    (value (attempt bit pci_dev k h)).
Proof.
  destruct (attempt_registry_ok bit pci_dev k h [] (registry_ok_nil h))
    as (Hall & _).
  by apply Forall_cons in Hall as [? _].
Qed.

Lemma attempt_footprint bit pci_dev k h :
  footprint (heap_of (attempt bit pci_dev k h))
    (value (attempt bit pci_dev k h))
  = if bit && probe_succeeds k
    then [addr_hid h; addr_buf h; addr_data h] else [].
Proof.
  rewrite attempt_value, attempt_heap.
  destruct (bit && probe_succeeds k); [apply success_footprint|done].
Qed.

Lemma attempt_footprint_new bit pci_dev k h x :
  x ∈ footprint (heap_of (attempt bit pci_dev k h))
        (value (attempt bit pci_dev k h)) →
  h !! x = None.
Proof.
  rewrite attempt_footprint.
  destruct (addr_fresh h) as (Ha & Hr1 & Hr2 & _).
  destruct (bit && probe_succeeds k); [|by intros ?%elem_of_nil].
  rewrite !elem_of_cons, elem_of_nil. intros [->|[->|[->|[]]]]; done.
Qed.

Lemma attempt_heap_other bit pci_dev k h x :
  x ∉ footprint (heap_of (attempt bit pci_dev k h))
        (value (attempt bit pci_dev k h)) →
  heap_of (attempt bit pci_dev k h) !! x = h !! x.
Proof.
  rewrite attempt_footprint, attempt_heap.
  destruct (bit && probe_succeeds k); [|done].
  apply success_heap_lookup_other.
Qed.

Lemma attempt_balance bit pci_dev k h :
  allocated (events (attempt bit pci_dev k h))
  ≡ₚ released (events (attempt bit pci_dev k h))
     ++ footprint (heap_of (attempt bit pci_dev k h))
          (value (attempt bit pci_dev k h)).
Proof.
  unfold attempt. destruct bit; [apply probe_result_balance|done].
Qed.

Lemma attempt_registered bit pci_dev k h :
  registered (events (attempt bit pci_dev k h))
  = addrs_of [value (attempt bit pci_dev k h)].
Proof.
  unfold attempt. destruct bit; [apply probe_result_registered|done].
Qed.

Lemma probe_result_released_new pci_dev k h x :
  x ∈ released (events (probe_result pci_dev k h)) → h !! x = None.
Proof.
  destruct (addr_fresh h) as (Ha & Hr1 & Hr2 & _).
  unfold probe_result, success_events.
  destruct (first_failure k) as [[]|];
    cbn [events snd failure_events];
    destruct (name_warning_cases k) as [Hn|Hn];
    destruct phys_warning_cases as [Hp|Hp];
    rewrite ?Hn, ?Hp; cbn;
    rewrite ?elem_of_cons, elem_of_nil; intuition congruence.
Qed.

Lemma attempt_all_released_new mask pci_dev Ks : ∀ h x,
  x ∈ released (events (attempt_all mask pci_dev Ks h)) → h !! x = None.
Proof.
  induction Ks as [|K Ks IH]; intros h x.
  { by intros ?%elem_of_nil. }
  cbn [attempt_all events snd]. split_events. rewrite released_store.
  rewrite !elem_of_app. intros [Hx|[Hx|Hx]].
  - unfold attempt in Hx. destruct (bit_set mask K).
    + by apply probe_result_released_new in Hx.
    + by apply elem_of_nil in Hx.
  - by apply elem_of_nil in Hx.
  - eapply lookup_weaken_None; [by apply IH in Hx|].
    apply attempt_heap_mono.
Qed.

Lemma attempt_all_registered mask pci_dev Ks : ∀ h,
  registered (events (attempt_all mask pci_dev Ks h))
  = addrs_of (value (attempt_all mask pci_dev Ks h)).
Proof.
  induction Ks as [|K Ks IH]; intros h; [done|].
  cbn [attempt_all value events fst snd]. split_events.
  rewrite attempt_registered, registered_store, IH.
  by destruct (value (attempt (bit_set mask K) pci_dev (idx_of K) h)).
Qed.

Lemma attempt_all_balance mask pci_dev Ks : ∀ h,
  allocated (events (attempt_all mask pci_dev Ks h))
  ≡ₚ released (events (attempt_all mask pci_dev Ks h))
     ++ (value (attempt_all mask pci_dev Ks h)
           ≫= footprint (heap_of (attempt_all mask pci_dev Ks h))).
Proof.
  induction Ks as [|K Ks IH]; intros h; [done|].
  cbn [attempt_all value heap_of events fst snd]. split_events.
  rewrite allocated_store, released_store, bind_cons. cbn [app].
  rewrite (footprint_mono
             (heap_of (attempt (bit_set mask K) pci_dev (idx_of K) h)))
    by (apply attempt_all_heap_mono || apply attempt_device_ok).
  rewrite (attempt_balance _ _ _ h), IH.
  rewrite <- !app_assoc. apply Permutation_app_head.
  apply Permutation_app_swap_app.
Qed.

Lemma attempt_all_heap_split mask pci_dev Ks : ∀ h,
  (∀ x, x ∈ value (attempt_all mask pci_dev Ks h)
              ≫= footprint (heap_of (attempt_all mask pci_dev Ks h)) →
        h !! x = None)
  ∧ (∀ x, x ∉ value (attempt_all mask pci_dev Ks h)
                ≫= footprint (heap_of (attempt_all mask pci_dev Ks h)) →
          heap_of (attempt_all mask pci_dev Ks h) !! x = h !! x).
Proof.
  induction Ks as [|K Ks IH]; intros h.
  { split; [by intros x ?%elem_of_nil | done]. }
  cbn [attempt_all value heap_of fst snd]. rewrite bind_cons.
  set (r := attempt (bit_set mask K) pci_dev (idx_of K) h).
  rewrite (footprint_mono (heap_of r))
    by (apply attempt_all_heap_mono || apply attempt_device_ok).
  destruct (IH (heap_of r)) as [IHnew IHold]. split.
  - intros x [Hx|Hx]%elem_of_app.
    + by apply attempt_footprint_new in Hx.
    + eapply lookup_weaken_None; [by apply IHnew|].
      apply attempt_heap_mono.
  - intros x Hx. rewrite IHold.
    + apply attempt_heap_other. intros Hin. apply Hx, elem_of_app. by left.
    + intros Hin. apply Hx, elem_of_app. by right.
Qed.

Lemma attempt_all_new mask pci_dev Ks : ∀ h,
  Forall (λ p, p = NULL ∨ ∃ a, p = Ptr a ∧ h !! a = None)
    (value (attempt_all mask pci_dev Ks h)).
Proof.
  induction Ks as [|K Ks IH]; intros h; [constructor|].
  cbn [attempt_all value fst snd]. constructor.
  - rewrite attempt_value.
    destruct (bit_set mask K && probe_succeeds (idx_of K)); [|by left].
    right. exists (addr_hid h). split; [done|]. apply addr_fresh.
  - eapply Forall_impl; [apply IH|]. intros p [->|(a & -> & Ha)]; [by left|].
    right. exists a. split; [done|].
    eapply lookup_weaken_None; [done|]. apply attempt_heap_mono.
Qed.

Lemma attempt_all_stores_zip mask pci_dev Ks : ∀ h,
  stores (events (attempt_all mask pci_dev Ks h))
  = zip (slot_of <$> Ks) (value (attempt_all mask pci_dev Ks h)).
Proof.
  assert (∀ bit k h, stores (events (attempt bit pci_dev k h)) = []) as Hnone.
  { intros bit k h. unfold attempt, probe_result, success_events.
    destruct bit; [|done].
    destruct (first_failure k) as [[]|];
      cbn [events snd failure_events];
      destruct (name_warning_cases k) as [Hn|Hn];
      destruct phys_warning_cases as [Hp|Hp];
      rewrite ?Hn, ?Hp; reflexivity. }
  induction Ks as [|K Ks IH]; intros h; [done|].
  cbn [attempt_all value events fst snd]. split_events.
  rewrite Hnone, IH. reflexivity.
Qed.

Lemma attempt_all_same_bits m1 m2 pci_dev Ks : ∀ h,
  (∀ K, K ∈ Ks → bit_set m1 K = bit_set m2 K) →
  attempt_all m1 pci_dev Ks h = attempt_all m2 pci_dev Ks h.
Proof.
  induction Ks as [|K Ks IH]; intros h Hsame; [done|].
  cbn [attempt_all].
  rewrite (Hsame K) by (apply elem_of_cons; by left).
  rewrite IH; [done|]. intros J HJ. apply Hsame, elem_of_cons. by right.
Qed.

Lemma attempt_all_nothing mask pci_dev Ks : ∀ h,
  (∀ K, K ∈ Ks → bit_set mask K && probe_succeeds (idx_of K) = false) →
  value (attempt_all mask pci_dev Ks h) = replicate (length Ks) NULL
  ∧ heap_of (attempt_all mask pci_dev Ks h) = h.
Proof.
  induction Ks as [|K Ks IH]; intros h Hnone; [done|].
  cbn [attempt_all value heap_of fst snd length replicate].
  rewrite attempt_value, attempt_heap.
  rewrite (Hnone K) by (apply elem_of_cons; by left).
  destruct (IH h) as [-> ->]; [|done].
  intros J HJ. apply Hnone, elem_of_cons. by right.
Qed.

Lemma success_heap_size pci_dev k h :
  size (success_heap pci_dev k h) = (size h + 3)%nat.
Proof.
  destruct (addr_fresh h) as (Ha & Hr1 & Hr2 & Har1 & Har2 & Hr12).
  unfold success_heap.
  rewrite !map_size_insert_None; [lia | lookup_solve..].
Qed.

Lemma attempt_all_size mask pci_dev Ks : ∀ h,
  size (heap_of (attempt_all mask pci_dev Ks h))
  = (size h + 3 * length (addrs_of (value (attempt_all mask pci_dev Ks h))))%nat.
Proof.
  induction Ks as [|K Ks IH]; intros h.
  { cbn. lia. }
  cbn [attempt_all value heap_of fst snd].
  rewrite IH, attempt_value, attempt_heap.
  destruct (bit_set mask K && probe_succeeds (idx_of K)); cbn [addrs_of omap list_omap length].
  - rewrite success_heap_size. fold (addrs_of (value (attempt_all mask pci_dev Ks (success_heap pci_dev (idx_of K) h)))). lia.
  - done.
Qed.

End InitMore.

Section LifecycleMore.
Context {P : platform} {E : env}.

(** X9. [amd_sfh_client_init] looks at nothing but the PCI device and
    the four bits it tests: what the slots held before and every other
    bit of the mask make no difference to the registry, the heap and
    the events it produces. *)
Theorem init_ignores_slots_and_other_bits pd1 pd2 h mask' :
  length (sensors pd1) = AMD_SFH_MAX_SENSORS →
  length (sensors pd2) = AMD_SFH_MAX_SENSORS →
  sfh_pci_dev pd1 = sfh_pci_dev pd2 →
  (∀ K, bit_set mask' K
        = bit_set (amd_sfh_get_sensor_mask (sfh_pci_dev pd1)) K) →
  @amd_sfh_client_init P (with_mask E mask') pd2 h
  = @amd_sfh_client_init P E pd1 h.
Proof.
  intros Hlen1 Hlen2 Hpci Hbits.
  rewrite !amd_sfh_client_init_run by done.
  rewrite <- Hpci, attempt_all_with_mask.
  change (@amd_sfh_get_sensor_mask (with_mask E mask') (sfh_pci_dev pd1))
    with mask'.
  by rewrite (attempt_all_same_bits mask'
                (amd_sfh_get_sensor_mask (sfh_pci_dev pd1))).
Qed.

(** X10. When no kind has both its bit set and a probe that succeeds
    (an empty mask, or every attempted probe failing),
    [amd_sfh_client_init] leaves four [NULL] slots, the heap as it
    was, and nothing registered. *)
Theorem init_creates_nothing pd h :
  length (sensors pd) = AMD_SFH_MAX_SENSORS →
  (∀ K, bit_set (amd_sfh_get_sensor_mask (sfh_pci_dev pd)) K
        && probe_succeeds (idx_of K) = false) →
  sensors (value (amd_sfh_client_init pd h))
  = replicate AMD_SFH_MAX_SENSORS NULL
  ∧ heap_of (amd_sfh_client_init pd h) = h
  ∧ registered (events (amd_sfh_client_init pd h)) = [].
Proof.
  intros Hlen Hnone. rewrite amd_sfh_client_init_run by done.
  cbn [value heap_of events fst snd sensors].
  rewrite attempt_all_registered.
  destruct (attempt_all_nothing (amd_sfh_get_sensor_mask (sfh_pci_dev pd))
              (sfh_pci_dev pd) all_kinds h) as [-> ->]; [by auto|].
  done.
Qed.

(** X11. [amd_sfh_client_init] never destroys what it finds: every
    object that was on the heap is still there unchanged, nothing that
    existed before the call is released, and no slot points to an old
    object afterwards.  So a device that was live in the registry when
    init is called again is still on the heap and on the bus, and no
    slot refers to it any more. *)
Theorem init_overwrites_without_destroying pd h :
  length (sensors pd) = AMD_SFH_MAX_SENSORS →
  (∀ x, is_Some (h !! x) → heap_of (amd_sfh_client_init pd h) !! x = h !! x)
  ∧ (∀ x, x ∈ released (events (amd_sfh_client_init pd h)) → h !! x = None)
  ∧ (∀ p, live_device h p →
          live_device (heap_of (amd_sfh_client_init pd h)) p
          ∧ p ∉ sensors (value (amd_sfh_client_init pd h))).
Proof.
  intros Hlen. rewrite amd_sfh_client_init_run by done.
  cbn [value heap_of events fst snd sensors].
  pose proof (attempt_all_heap_mono
                (amd_sfh_get_sensor_mask (sfh_pci_dev pd))
                (sfh_pci_dev pd) all_kinds h) as Hsub.
  split_and!.
  - intros x [o Ho]. rewrite Ho. by eapply lookup_weaken.
  - intros x. apply attempt_all_released_new.
  - intros p Hlive. split; [by eapply live_device_mono|].
    intros Hin.
    pose proof (attempt_all_new (amd_sfh_get_sensor_mask (sfh_pci_dev pd))
                  (sfh_pci_dev pd) all_kinds h) as Hnew.
    destruct (proj1 (Forall_forall _ _) Hnew p Hin)
      as [->|(a & -> & Ha)].
    + by destruct Hlive as (a & d & ? & _).
    + destruct Hlive as (b & d & [= <-] & Hb & _). congruence.
Qed.

(** X12. [amd_sfh_client_init] writes each of the four slots exactly
    once, in index order, and the value written is the value the slot
    has on return; the registry keeps its length and the driver data
    its PCI device. *)
Theorem init_writes_each_slot_once pd h :
  length (sensors pd) = AMD_SFH_MAX_SENSORS →
  stores (events (amd_sfh_client_init pd h))
  = zip [0; 1; 2; 3]%nat (sensors (value (amd_sfh_client_init pd h)))
  ∧ length (sensors (value (amd_sfh_client_init pd h))) = AMD_SFH_MAX_SENSORS
  ∧ sfh_pci_dev (value (amd_sfh_client_init pd h)) = sfh_pci_dev pd.
Proof.
  intros Hlen. rewrite amd_sfh_client_init_run by done.
  cbn [value heap_of events fst snd sensors sfh_pci_dev].
  rewrite attempt_all_stores_zip, attempt_all_length. done.
Qed.

(** X13. After [amd_sfh_client_init] no two slots share anything: the
    devices in the slots are pairwise different, and so are all the
    allocations behind them. *)
Theorem init_slots_do_not_alias pd h :
  length (sensors pd) = AMD_SFH_MAX_SENSORS →
  NoDup (addrs_of (sensors (value (amd_sfh_client_init pd h))))
  ∧ NoDup (sensors (value (amd_sfh_client_init pd h))
             ≫= footprint (heap_of (amd_sfh_client_init pd h))).
Proof.
  intros Hlen. destruct (init_registry_ok pd h Hlen) as [_ Hok].
  split; [by eapply registry_ok_NoDup_addrs | apply Hok].
Qed.

(** X14. Init followed by deinit is a round trip: the heap is what it
    was before init, all slots are [NULL], the devices taken off the
    bus by deinit are those init registered, in the same order, and
    the allocations of init are exactly what init and deinit together
    release.  Deinit itself allocates nothing. *)
Theorem init_then_deinit_restores pd h :
  length (sensors pd) = AMD_SFH_MAX_SENSORS →
  heap_of (amd_sfh_client_deinit (value (amd_sfh_client_init pd h))
             (heap_of (amd_sfh_client_init pd h)))
  = h
  ∧ sensors (value (amd_sfh_client_deinit (value (amd_sfh_client_init pd h))
                      (heap_of (amd_sfh_client_init pd h))))
    = replicate AMD_SFH_MAX_SENSORS NULL
  ∧ unregistered
      (events (amd_sfh_client_deinit (value (amd_sfh_client_init pd h))
                 (heap_of (amd_sfh_client_init pd h))))
    = registered (events (amd_sfh_client_init pd h))
  ∧ allocated (events (amd_sfh_client_init pd h))
    ≡ₚ released (events (amd_sfh_client_init pd h))
       ++ released
            (events (amd_sfh_client_deinit (value (amd_sfh_client_init pd h))
                       (heap_of (amd_sfh_client_init pd h))))
  ∧ allocated
      (events (amd_sfh_client_deinit (value (amd_sfh_client_init pd h))
                 (heap_of (amd_sfh_client_init pd h))))
    = [].
Proof.
  intros Hlen. destruct (init_registry_ok pd h Hlen) as [Hlen' Hok].
  rewrite amd_sfh_client_deinit_run by done.
  cbn [value heap_of events fst snd sensors].
  destruct (teardown_all_ok _ 0 _ Hok) as (_ & Hu & Hr & Hgone & Hkeep).
  rewrite Hu, Hr. clear Hu Hr.
  rewrite amd_sfh_client_init_run in * by done.
  cbn [value heap_of events fst snd sensors] in *.
  destruct (attempt_all_heap_split
              (amd_sfh_get_sensor_mask (sfh_pci_dev pd))
              (sfh_pci_dev pd) all_kinds h) as [Hnew Hold].
  split_and!.
  - apply map_eq. intros x.
    destruct (decide (x ∈ value (attempt_all
                                   (amd_sfh_get_sensor_mask (sfh_pci_dev pd))
                                   (sfh_pci_dev pd) all_kinds h)
                          ≫= footprint
                               (heap_of (attempt_all
                                   (amd_sfh_get_sensor_mask (sfh_pci_dev pd))
                                   (sfh_pci_dev pd) all_kinds h))))
      as [Hin|Hnin].
    + by rewrite Hgone, Hnew.
    + by rewrite Hkeep, Hold.
  - done.
  - by rewrite attempt_all_registered.
  - apply attempt_all_balance.
  - apply teardown_all_allocated.
Qed.

End LifecycleMore.

Section RegistrationMore.
Context {P : platform} {E : env}.

Lemma attempt_all_unregistered mask pci_dev Ks : ∀ h,
  unregistered (events (attempt_all mask pci_dev Ks h)) = [].
Proof.
  assert (∀ bit k h, unregistered (events (attempt bit pci_dev k h)) = [])
    as Hnone.
  { intros bit k h. unfold attempt, probe_result, success_events.
    destruct bit; [|done].
    destruct (first_failure k) as [[]|];
      cbn [events snd failure_events];
      destruct (name_warning_cases k) as [Hn|Hn];
      destruct phys_warning_cases as [Hp|Hp];
      rewrite ?Hn, ?Hp; reflexivity. }
  induction Ks as [|K Ks IH]; intros h; [done|].
  cbn [attempt_all events snd]. split_events.
  by rewrite Hnone, IH.
Qed.

(** X17. The devices [amd_sfh_client_init] puts on the bus are exactly
    the devices it leaves in the slots, registered in slot order, each
    once; no device is registered and then lost, and init takes no
    device off the bus (the devices its failed probes destroy were
    never on it). *)
Theorem init_registers_exactly_the_slots pd h :
  length (sensors pd) = AMD_SFH_MAX_SENSORS →
  registered (events (amd_sfh_client_init pd h))
  = addrs_of (sensors (value (amd_sfh_client_init pd h)))
  ∧ unregistered (events (amd_sfh_client_init pd h)) = [].
Proof.
  intros Hlen. rewrite amd_sfh_client_init_run by done.
  cbn [value events fst snd sensors].
  split; [apply attempt_all_registered | apply attempt_all_unregistered].
Qed.

End RegistrationMore.

(** X15. [amd_sfh_client_deinit] only ever takes away, whatever the
    slots hold: the heap afterwards is a part of the heap before, and
    the call allocates nothing and registers nothing; the driver data
    keeps its PCI device. *)
Theorem deinit_only_releases pd h :
  length (sensors pd) = AMD_SFH_MAX_SENSORS →
  heap_of (amd_sfh_client_deinit pd h) ⊆ h
  ∧ allocated (events (amd_sfh_client_deinit pd h)) = []
  ∧ registered (events (amd_sfh_client_deinit pd h)) = []
  ∧ sfh_pci_dev (value (amd_sfh_client_deinit pd h)) = sfh_pci_dev pd.
Proof.
  intros Hlen. rewrite amd_sfh_client_deinit_run by done.
  cbn [value heap_of events fst snd sfh_pci_dev].
  destruct (teardown_all_allocated (sensors pd) 0 h) as [-> ->].
  split_and!; try done. apply teardown_all_heap_sub.
Qed.

Section SizeMore.
Context {P : platform} {E : env}.

(** X16. Every device [amd_sfh_client_init] leaves in the registry
    costs exactly three objects on the heap (the device, its driver
    data and its report buffer), and failed or skipped probes cost
    nothing. *)
Theorem init_heap_size pd h :
  length (sensors pd) = AMD_SFH_MAX_SENSORS →
  size (heap_of (amd_sfh_client_init pd h))
  = (size h
     + 3 * length (addrs_of (sensors (value (amd_sfh_client_init pd h)))))%nat.
Proof.
  intros Hlen. rewrite amd_sfh_client_init_run by done.
  cbn [value heap_of fst snd sensors]. apply attempt_all_size.
Qed.

End SizeMore.

(** * The further properties on concrete inputs *)

Lemma probed_device_identity_witness :
  let E := friendly_env 524289 3 in
  @probe_succeeds example_platform E 19 = true
  ∧ ∃ a r1 d x,
      value (@amd_sfh_hid_probe example_platform E (Ptr 99) 19 ∅) = Ptr a
      ∧ heap_of (@amd_sfh_hid_probe example_platform E (Ptr 99) 19 ∅) !! a
        = Some (Hid d)
      ∧ heap_of (@amd_sfh_hid_probe example_platform E (Ptr 99) 19 ∅) !! r1
        = Some (HidData x)
      ∧ hid_vendor d = 0x3fe
      ∧ hid_driver_data d = Ptr r1
      ∧ hd_pci_dev x = Ptr 99
      ∧ hd_hid x = Ptr a.
Proof.
  intros E.
  assert (@probe_succeeds example_platform E 19 = true) as Hok by reflexivity.
  destruct (@probed_device_identity example_platform E (Ptr 99) 19 ∅ Hok)
    as (a & r1 & r2 & d & x & Hv & Hd & Hx & _ & _ & _ & _ & _ & Hven & _ & _
        & _ & _ & Hdd & _ & _ & _ & Hpci & Hhid & _).
  split; [exact Hok|]. exists a, r1, d, x.
  split_and!; [exact Hv | exact Hd | exact Hx | exact Hven | exact Hdd
              | exact Hpci | exact Hhid].
Defined.

Lemma probe_warnings_exact_witness :
  let E := friendly_env 524289 3 in
  0 ≤ @sizeof_hid_name narrow_platform ≤ INT_MAX
  ∧ 0 ≤ @sizeof_hid_phys narrow_platform ≤ INT_MAX
  ∧ 32 ≤ @SIZE_T_BITS narrow_platform
  ∧ warnings (events (@amd_sfh_hid_probe narrow_platform E (Ptr 99) 19 ∅))
    = ["Could not set HID device name."; "Could not set HID device location."].
Proof.
  intros E.
  assert (0 ≤ @sizeof_hid_name narrow_platform ≤ INT_MAX) as Hn
    by (vm_compute; split; discriminate).
  assert (0 ≤ @sizeof_hid_phys narrow_platform ≤ INT_MAX) as Hp
    by (vm_compute; split; discriminate).
  assert (32 ≤ @SIZE_T_BITS narrow_platform) as Hb
    by (vm_compute; discriminate).
  split_and!; [apply Hn | apply Hn | apply Hp | apply Hp | exact Hb |].
  exact (@probe_warnings_exact narrow_platform E (Ptr 99) 19 ∅ Hn Hp Hb).
Defined.

Lemma sensor_name_determines_index_witness :
  NoDup [0; 1; 2; 19]
  ∧ (∀ k, @amd_sfh_get_sensor_name example_platform 2
          = @amd_sfh_get_sensor_name example_platform k → 2 = k)
  ∧ (@amd_sfh_get_sensor_name example_platform 5 = "unknown sensor type"
     ↔ 5 ∉ [0; 1; 2; 19]).
Proof.
  assert (NoDup [0; 1; 2; 19]) as Hnd by compute_done.
  destruct (@sensor_name_determines_index example_platform Hnd)
    as [Hfallback Hinj].
  split_and!; [exact Hnd | | exact (Hfallback 5)].
  intros k. apply Hinj. compute_done.
Defined.

Lemma wide_fields_never_truncate_witness :
  let E := friendly_env 524289 3 in
  20 < @sizeof_hid_name example_platform ≤ INT_MAX
  ∧ 28 < @sizeof_hid_phys example_platform ≤ INT_MAX
  ∧ 32 ≤ @SIZE_T_BITS example_platform
  ∧ warnings (events (@amd_sfh_hid_probe example_platform E (Ptr 99) 19 ∅))
    = [].
Proof.
  intros E.
  assert (20 < @sizeof_hid_name example_platform ≤ INT_MAX) as Hn
    by (vm_compute; split; [reflexivity | discriminate]).
  assert (28 < @sizeof_hid_phys example_platform ≤ INT_MAX) as Hp
    by (vm_compute; split; [reflexivity | discriminate]).
  assert (32 ≤ @SIZE_T_BITS example_platform) as Hb
    by (vm_compute; discriminate).
  split_and!; [apply Hn | apply Hn | apply Hp | apply Hp | exact Hb |].
  exact (proj1 (@wide_fields_never_truncate example_platform E (Ptr 99) 19 ∅
                  Hn Hp Hb)).
Defined.

Lemma probe_then_destroy_restores_witness :
  let E := friendly_env 524289 3 in
  @probe_succeeds example_platform E 0 = true
  ∧ heap_of (hid_destroy_device
               (value (@amd_sfh_hid_probe example_platform E (Ptr 99) 0 ∅))
               (heap_of (@amd_sfh_hid_probe example_platform E (Ptr 99) 0 ∅)))
    = ∅.
Proof.
  intros E.
  assert (@probe_succeeds example_platform E 0 = true) as Hok by reflexivity.
  split; [exact Hok|].
  exact (proj1 (@probe_then_destroy_restores example_platform E (Ptr 99) 0 ∅
                  Hok)).
Defined.

Lemma init_ignores_slots_and_other_bits_witness :
  let E := friendly_env 524289 3 in
  let pd1 := fresh_privdata (Ptr 99) in
  let pd2 := mk_amd_sfh_data (Ptr 99) [Ptr 7; Ptr 8; NULL; ERR_PTR (-12)] in
  length (sensors pd1) = AMD_SFH_MAX_SENSORS
  ∧ length (sensors pd2) = AMD_SFH_MAX_SENSORS
  ∧ sfh_pci_dev pd1 = sfh_pci_dev pd2
  ∧ (∀ K, @bit_set example_platform 524297 K
          = @bit_set example_platform 524289 K)
  ∧ @amd_sfh_client_init example_platform (with_mask E 524297) pd2 ∅
    = @amd_sfh_client_init example_platform E pd1 ∅.
Proof.
  intros E pd1 pd2.
  assert (∀ K, @bit_set example_platform 524297 K
               = @bit_set example_platform 524289 K) as Hbits
    by (intros []; reflexivity).
  split_and!; [reflexivity | reflexivity | reflexivity | exact Hbits |].
  exact (@init_ignores_slots_and_other_bits example_platform E pd1 pd2 ∅
           524297 eq_refl eq_refl eq_refl Hbits).
Defined.

Lemma init_creates_nothing_witness :
  let E := friendly_env 0 3 in
  let pd := fresh_privdata (Ptr 99) in
  length (sensors pd) = AMD_SFH_MAX_SENSORS
  ∧ (∀ K, @bit_set example_platform 0 K
          && @probe_succeeds example_platform E (@idx_of example_platform K)
          = false)
  ∧ sensors (value (@amd_sfh_client_init example_platform E pd ∅))
    = [NULL; NULL; NULL; NULL]
  ∧ heap_of (@amd_sfh_client_init example_platform E pd ∅) = ∅.
Proof.
  intros E pd.
  assert (∀ K, @bit_set example_platform 0 K
               && @probe_succeeds example_platform E
                    (@idx_of example_platform K) = false) as Hnone
    by (intros []; reflexivity).
  destruct (@init_creates_nothing example_platform E pd ∅ eq_refl Hnone)
    as (Hs & Hh & _).
  split_and!; [reflexivity | exact Hnone | exact Hs | exact Hh].
Defined.

Lemma init_overwrites_without_destroying_witness :
  let E := friendly_env 524289 3 in
  let r1 := @amd_sfh_client_init example_platform E (fresh_privdata (Ptr 99)) ∅ in
  let r2 := @amd_sfh_client_init example_platform E (value r1) (heap_of r1) in
  length (sensors (value r1)) = AMD_SFH_MAX_SENSORS
  ∧ Ptr 0 ∈ sensors (value r1)
  ∧ live_device (heap_of r1) (Ptr 0)
  ∧ live_device (heap_of r2) (Ptr 0)
  ∧ Ptr 0 ∉ sensors (value r2).
Proof.
  intros E r1 r2.
  assert (length (sensors (value r1)) = AMD_SFH_MAX_SENSORS) as Hlen
    by (vm_compute; reflexivity).
  assert (Ptr 0 ∈ sensors (value r1)) as Hin by compute_done.
  assert (live_device (heap_of r1) (Ptr 0)) as Hlive.
  { eexists 0%nat, _. split_and!; [reflexivity | vm_compute; reflexivity
                                  | reflexivity]. }
  destruct (@init_overwrites_without_destroying example_platform E
              (value r1) (heap_of r1) Hlen) as (_ & _ & Hleak).
  destruct (Hleak (Ptr 0) Hlive) as [Hstill Hgone].
  split_and!; [exact Hlen | exact Hin | exact Hlive | exact Hstill
              | exact Hgone].
Defined.

Lemma init_writes_each_slot_once_witness :
  let E := hostile_env 7 3 1 (mk_outcomes true true false 0) in
  let pd := fresh_privdata (Ptr 99) in
  length (sensors pd) = AMD_SFH_MAX_SENSORS
  ∧ stores (events (@amd_sfh_client_init example_platform E pd ∅))
    = zip [0; 1; 2; 3]%nat
        (sensors (value (@amd_sfh_client_init example_platform E pd ∅))).
Proof.
  intros E pd. split; [reflexivity|].
  exact (proj1 (@init_writes_each_slot_once example_platform E pd ∅ eq_refl)).
Defined.

Lemma init_slots_do_not_alias_witness :
  let E := friendly_env 524295 3 in
  let pd := fresh_privdata (Ptr 99) in
  length (sensors pd) = AMD_SFH_MAX_SENSORS
  ∧ NoDup (addrs_of
             (sensors (value (@amd_sfh_client_init example_platform E pd ∅)))).
Proof.
  intros E pd. split; [reflexivity|].
  exact (proj1 (@init_slots_do_not_alias example_platform E pd ∅ eq_refl)).
Defined.

Lemma init_then_deinit_restores_witness :
  let E := hostile_env 524295 3 1 (mk_outcomes true true true (-5)) in
  let pd := fresh_privdata (Ptr 99) in
  let r := @amd_sfh_client_init example_platform E pd ∅ in
  length (sensors pd) = AMD_SFH_MAX_SENSORS
  ∧ heap_of (amd_sfh_client_deinit (value r) (heap_of r)) = ∅
  ∧ unregistered (events (amd_sfh_client_deinit (value r) (heap_of r)))
    = registered (events r).
Proof.
  intros E pd r.
  destruct (@init_then_deinit_restores example_platform E pd ∅ eq_refl)
    as (Hh & _ & Hu & _).
  split_and!; [reflexivity | exact Hh | exact Hu].
Defined.

Lemma deinit_only_releases_witness :
  let E := friendly_env 524289 3 in
  let r := @amd_sfh_client_init example_platform E (fresh_privdata (Ptr 99)) ∅ in
  length (sensors (value r)) = AMD_SFH_MAX_SENSORS
  ∧ heap_of (amd_sfh_client_deinit (value r) (heap_of r)) ⊆ heap_of r
  ∧ allocated (events (amd_sfh_client_deinit (value r) (heap_of r))) = [].
Proof.
  intros E r.
  assert (length (sensors (value r)) = AMD_SFH_MAX_SENSORS) as Hlen
    by (vm_compute; reflexivity).
  destruct (deinit_only_releases (value r) (heap_of r) Hlen)
    as (Hsub & Hal & _).
  split_and!; [exact Hlen | exact Hsub | exact Hal].
Defined.

Lemma init_heap_size_witness :
  let E := friendly_env 524289 3 in
  let pd := fresh_privdata (Ptr 99) in
  length (sensors pd) = AMD_SFH_MAX_SENSORS
  ∧ size (heap_of (@amd_sfh_client_init example_platform E pd ∅)) = 6%nat.
Proof.
  intros E pd. split; [reflexivity|].
  exact (@init_heap_size example_platform E pd ∅ eq_refl).
Defined.

Lemma init_registers_exactly_the_slots_witness :
  let E := hostile_env 524295 3 1 (mk_outcomes true true true (-5)) in
  let pd := fresh_privdata (Ptr 99) in
  length (sensors pd) = AMD_SFH_MAX_SENSORS
  ∧ registered (events (@amd_sfh_client_init example_platform E pd ∅))
    = addrs_of (sensors (value (@amd_sfh_client_init example_platform E pd ∅)))
  ∧ unregistered (events (@amd_sfh_client_init example_platform E pd ∅)) = [].
Proof.
  intros E pd. split; [reflexivity|].
  exact (@init_registers_exactly_the_slots example_platform E pd ∅ eq_refl).
Defined.
